(** * NASCQUIZ: the quiz-state engine

    A shallow embedding of the functions of the Streamlit quiz that hold the
    logic of the application (loading, filtering, sampling, answering and
    scoring), followed by the properties stated about them.  The embedding
    follows [nascar_quiz-SABA51.py], the script with categories; the
    functions that differ in the earlier [nascar_quiz.py] are embedded in
    [DifficultyOnly] and related to the former at the end.

    Conventions of the embedding.
    - A question is a Python [dict]; the keys read with [q["k"]] are record
      fields, the keys read with [q.get("k", default)] are [option] fields.
    - Python [int]s that come from the question file or from the radio widget
      are [Z]; counters that start at [0] and are only incremented are [nat].
    - [st.session_state] is a record threaded through a state monad that also
      carries raised exceptions and the messages sent to [st.error] and
      [st.warning].
    - Text is [string]; [str.lower] is modelled on the ASCII letters (bytes
      outside [A-Z] are left as they are), so the embedding speaks of banks
      and filters whose letters are ASCII.
    - The cache of [@st.cache_data] belongs to the process and not to
      [st.session_state]; it is passed to the cached function and returned
      by it. *)

From Stdlib Require Import ZArith String Ascii List Lia.
From stdpp Require Import base option list sorting gmap strings pretty.

Local Open Scope string_scope.
Local Open Scope list_scope.
Local Open Scope Z_scope.
Local Open Scope nat_scope.

(** ** Strings *)

Definition lower_ascii (c : ascii) : ascii :=
  let n := nat_of_ascii c in
  if (65 <=? n) && (n <=? 90) then ascii_of_nat (n + 32) else c.

Fixpoint lower (s : string) : string :=
  match s with
  | EmptyString => EmptyString
  | String c s' => String (lower_ascii c) (lower s')
  end.

(** ** Data *)

(** An element of the ["questions"] array of the question file. *)
Record question := Question {
  q_question : string;
  q_options : list string;
  q_correct : Z;
  q_explanation : string;
  q_difficulty : option string;
  q_category : option string
}.

(** An entry of [st.session_state.answers], built by [submit_answer]. *)
Record answer := Answer {
  a_question : string;
  a_selected : Z;
  a_correct : Z;
  a_is_correct : bool;
  a_explanation : string;
  a_difficulty : option string;
  a_category : option string
}.

Global Instance question_eq_dec : EqDecision question.
Proof. solve_decision. Defined.

Global Instance answer_eq_dec : EqDecision answer.
Proof. solve_decision. Defined.

(** [st.session_state], with the keys initialised at the top of the script. *)
Record session_state := SessionState {
  quiz_started : bool;
  current_question : nat;
  score : nat;
  answers : list answer;
  quiz_questions : list question;
  questions_loaded : bool;
  all_questions : list question;
  selected_difficulty : string;
  selected_category : string
}.

Definition initial_state : session_state :=
  {| quiz_started := false; current_question := 0; score := 0;
     answers := []; quiz_questions := []; questions_loaded := false;
     all_questions := []; selected_difficulty := "mixed";
     selected_category := "all" |}.

Definition set_quiz_started (b : bool) (st : session_state) : session_state :=
  {| quiz_started := b; current_question := current_question st;
     score := score st; answers := answers st;
     quiz_questions := quiz_questions st;
     questions_loaded := questions_loaded st;
     all_questions := all_questions st;
     selected_difficulty := selected_difficulty st;
     selected_category := selected_category st |}.

Definition set_current_question (n : nat) (st : session_state) : session_state :=
  {| quiz_started := quiz_started st; current_question := n;
     score := score st; answers := answers st;
     quiz_questions := quiz_questions st;
     questions_loaded := questions_loaded st;
     all_questions := all_questions st;
     selected_difficulty := selected_difficulty st;
     selected_category := selected_category st |}.

Definition set_score (n : nat) (st : session_state) : session_state :=
  {| quiz_started := quiz_started st; current_question := current_question st;
     score := n; answers := answers st;
     quiz_questions := quiz_questions st;
     questions_loaded := questions_loaded st;
     all_questions := all_questions st;
     selected_difficulty := selected_difficulty st;
     selected_category := selected_category st |}.

Definition set_answers (l : list answer) (st : session_state) : session_state :=
  {| quiz_started := quiz_started st; current_question := current_question st;
     score := score st; answers := l;
     quiz_questions := quiz_questions st;
     questions_loaded := questions_loaded st;
     all_questions := all_questions st;
     selected_difficulty := selected_difficulty st;
     selected_category := selected_category st |}.

Definition set_quiz_questions (l : list question) (st : session_state) : session_state :=
  {| quiz_started := quiz_started st; current_question := current_question st;
     score := score st; answers := answers st;
     quiz_questions := l;
     questions_loaded := questions_loaded st;
     all_questions := all_questions st;
     selected_difficulty := selected_difficulty st;
     selected_category := selected_category st |}.

Definition set_selected_difficulty (d : string) (st : session_state) : session_state :=
  {| quiz_started := quiz_started st; current_question := current_question st;
     score := score st; answers := answers st;
     quiz_questions := quiz_questions st;
     questions_loaded := questions_loaded st;
     all_questions := all_questions st;
     selected_difficulty := d;
     selected_category := selected_category st |}.

Definition set_selected_category (c : string) (st : session_state) : session_state :=
  {| quiz_started := quiz_started st; current_question := current_question st;
     score := score st; answers := answers st;
     quiz_questions := quiz_questions st;
     questions_loaded := questions_loaded st;
     all_questions := all_questions st;
     selected_difficulty := selected_difficulty st;
     selected_category := c |}.

(** ** Effects: session state, exceptions and messages *)

Inductive exn :=
  | IndexError
  | ValueError
  | AttributeError (msg : string)
  | JSONDecodeError (msg : string)
  | OSError (msg : string).

Inductive notice :=
  | st_error (msg : string)
  | st_warning (msg : string).

Inductive outcome (A : Type) :=
  | Returned (a : A) (st : session_state) (out : list notice)
  | Raised (e : exn) (st : session_state) (out : list notice).
Arguments Returned {A} a st out.
Arguments Raised {A} e st out.

Definition M (A : Type) : Type := session_state → outcome A.

Module Import QuizMonad.

Definition ret {A} (a : A) : M A := λ st, Returned a st [].

Definition bind {A B} (m : M A) (k : A → M B) : M B := λ st,
  match m st with
  | Returned a st1 out1 =>
      match k a st1 with
      | Returned b st2 out2 => Returned b st2 (out1 ++ out2)
      | Raised e st2 out2 => Raised e st2 (out1 ++ out2)
      end
  | Raised e st1 out1 => Raised e st1 out1
  end.

Definition raise {A} (e : exn) : M A := λ st, Raised e st [].
Definition gets {A} (f : session_state → A) : M A := λ st, Returned (f st) st [].
Definition modify (f : session_state → session_state) : M unit :=
  λ st, Returned tt (f st) [].
Definition emit (n : notice) : M unit := λ st, Returned tt st [n].

Global Instance M_ret : MRet M := @ret.
Global Instance M_bind : MBind M := λ A B k m, bind m k.

(** [l[i]] for a non-negative [i]. *)
Definition index {A} (l : list A) (i : nat) : M A :=
  match l !! i with
  | Some x => ret x
  | None => raise IndexError
  end.

End QuizMonad.

(** ** Filter functions *)

Definition filter_questions_by_difficulty
    (questions : list question) (difficulty_level : string) : list question :=
  if decide (difficulty_level = "mixed") then questions
  else filter (λ q, lower (default "" (q_difficulty q)) = lower difficulty_level)
         questions.

Definition filter_questions_by_category
    (questions : list question) (category : string) : list question :=
  if decide (category = "all") then questions
  else filter (λ q, lower (default "" (q_category q)) = lower category)
         questions.

(** [sorted] on strings compares code points. *)
Definition str_le (a b : string) : Prop := String.leb a b = true.

Global Instance str_le_dec : RelDecision str_le.
Proof. intros a b. unfold str_le. apply _. Defined.

(** The loop that fills the [categories] set; an empty label is skipped. *)
Definition categories_of (questions : list question) : gset string :=
  foldl (λ (categories : gset string) question,
           let category := default "Unknown" (q_category question) in
           if decide (category = "") then categories
           else categories ∪ {[category]})
        ∅ questions.

Definition get_available_categories (st : session_state) : list string :=
  if decide (all_questions st = []) then []
  else merge_sort str_le (elements (categories_of (all_questions st))).

Definition get_difficulty_stats (st : session_state) : gmap string nat :=
  if decide (all_questions st = []) then ∅
  else
    foldl (λ (stats : gmap string nat) question,
             let difficulty := lower (default "unknown" (q_difficulty question)) in
             <[difficulty := default 0 (stats !! difficulty) + 1]> stats)
          ∅ (all_questions st).

Definition get_category_stats (st : session_state) : gmap string nat :=
  if decide (all_questions st = []) then ∅
  else
    foldl (λ (stats : gmap string nat) question,
             let category := default "Unknown" (q_category question) in
             <[category := default 0 (stats !! category) + 1]> stats)
          ∅ (all_questions st).

Definition get_filtered_question_count
    (difficulty category : string) (st : session_state) : nat :=
  let questions := all_questions st in
  let questions :=
    if decide (category ≠ "all")
    then filter (λ q, lower (default "" (q_category q)) = lower category) questions
    else questions in
  let questions :=
    if decide (difficulty ≠ "mixed")
    then filter (λ q, lower (default "" (q_difficulty q)) = lower difficulty) questions
    else questions in
  length questions.

(** ** Sampling

    [random.sample(population, k)] belongs to Python's standard library: it
    returns [k] entries taken at pairwise distinct positions of
    [population], and raises [ValueError] when [k] exceeds the length.  It is
    modelled as [k] successive draws without replacement; the generator is an
    explicit list [rnd] of raw random numbers, one per draw (an exhausted
    list reads as [0]), so that every property below is proved for every
    behaviour of the generator. *)

Fixpoint draw {A} (rnd : list nat) (pool : list A) (k : nat) : list A :=
  match k with
  | 0 => []
  | S k' =>
      let j := hd 0 rnd `mod` length pool in
      match pool !! j with
      | Some x => x :: draw (tl rnd) (delete j pool) k'
      | None => []
      end
  end.

Definition random_sample {A} (rnd : list nat) (population : list A) (k : nat)
    : M (list A) :=
  if decide (length population < k) then raise ValueError
  else mret (draw rnd population k).

(** ** Session functions *)

Definition start_quiz (rnd : list nat) (difficulty_level category : string)
    : M bool :=
  all ← gets all_questions;
  if decide (all = []) then
    emit (st_error "Cannot start quiz: No questions available.");;
    mret false
  else
    let available_questions := filter_questions_by_category all category in
    let available_questions :=
      filter_questions_by_difficulty available_questions difficulty_level in
    if decide (available_questions = []) then
      emit (st_error ("No questions available for " +:+ difficulty_level
                      +:+ " difficulty in " +:+ category +:+ " category."));;
      mret false
    else
      (if decide (length available_questions < 5) then
         emit (st_warning ("Only " +:+ pretty (length available_questions)
                           +:+ " questions available for " +:+ difficulty_level
                           +:+ " difficulty in " +:+ category +:+ " category."))
       else mret tt);;
      modify (set_quiz_started true);;
      modify (set_current_question 0);;
      modify (set_score 0);;
      modify (set_answers []);;
      modify (set_selected_difficulty difficulty_level);;
      modify (set_selected_category category);;
      let num_questions := min 5 (length available_questions) in
      sample ← random_sample rnd available_questions num_questions;
      modify (set_quiz_questions sample);;
      mret true.

(** The record appended to [st.session_state.answers]. *)
Definition answer_record (current_q : question) (selected_option : Z) : answer :=
  {| a_question := q_question current_q;
     a_selected := selected_option;
     a_correct := q_correct current_q;
     a_is_correct := bool_decide (selected_option = q_correct current_q);
     a_explanation := q_explanation current_q;
     a_difficulty := Some (default "medium" (q_difficulty current_q));
     a_category := Some (default "Unknown" (q_category current_q)) |}.

Definition submit_answer (selected_option : Z) : M unit :=
  questions ← gets quiz_questions;
  position ← gets current_question;
  current_q ← index questions position;
  let is_correct := bool_decide (selected_option = q_correct current_q) in
  (if is_correct then modify (λ st, set_score (score st + 1) st) else mret tt);;
  modify (λ st, set_answers (answers st ++ [answer_record current_q selected_option]) st);;
  modify (λ st, set_current_question (current_question st + 1) st).

Definition reset_quiz : M unit :=
  modify (set_quiz_started false);;
  modify (set_current_question 0);;
  modify (set_score 0);;
  modify (set_answers []);;
  modify (set_quiz_questions []).

(** ** Scoring *)

Definition difficulty_weights : gmap string nat :=
  <["easy" := 1]> (<["medium" := 2]> (<["hard" := 3]> ∅)).

(** The body of the [for i, answer in enumerate(answers)] loop, from index
    [i] on, with the two accumulators of [calculate_difficulty_score]. *)
Fixpoint score_loop (i : nat) (answers : list answer)
    (total_weighted_score max_possible_score : nat) : M (nat * nat) :=
  match answers with
  | [] => mret (total_weighted_score, max_possible_score)
  | answer :: rest =>
      questions ← gets quiz_questions;
      question ← index questions i;
      let difficulty := lower (default "medium" (q_difficulty question)) in
      let weight := default 2 (difficulty_weights !! difficulty) in
      let max_possible_score := max_possible_score + weight in
      let total_weighted_score :=
        if a_is_correct answer then total_weighted_score + weight
        else total_weighted_score in
      score_loop (S i) rest total_weighted_score max_possible_score
  end.

Definition calculate_difficulty_score (answers : list answer) : M (nat * nat) :=
  score_loop 0 answers 0 0.

(** One iteration of the loop that fills [difficulty_breakdown]. *)
Definition breakdown_step (m : gmap string (nat * nat)) (a : answer)
    : gmap string (nat * nat) :=
  let diff := lower (default "medium" (a_difficulty a)) in
  if decide (is_Some (m !! diff)) then
    let m' := alter (λ ct, (ct.1, ct.2 + 1)) diff m in
    if a_is_correct a then alter (λ ct, (ct.1 + 1, ct.2)) diff m' else m'
  else m.

(** The [difficulty_breakdown] dictionary of the results screen: key to
    [(correct, total)]. *)
Definition difficulty_breakdown (answers : list answer) : gmap string (nat * nat) :=
  foldl breakdown_step
    (<["easy" := (0, 0)]> (<["medium" := (0, 0)]> (<["hard" := (0, 0)]> ∅)))
    answers.

(** The [category_breakdown] dictionary of the results screen. *)
Definition category_breakdown (answers : list answer) : gmap string (nat * nat) :=
  foldl (λ (category_breakdown : gmap string (nat * nat)) answer,
           let cat := default "Unknown" (a_category answer) in
           let category_breakdown :=
             if decide (is_Some (category_breakdown !! cat)) then category_breakdown
             else <[cat := (0, 0)]> category_breakdown in
           let category_breakdown :=
             alter (λ ct, (ct.1, ct.2 + 1)) cat category_breakdown in
           if a_is_correct answer then
             alter (λ ct, (ct.1 + 1, ct.2)) cat category_breakdown
           else category_breakdown)
        ∅ answers.

(** ** Loading the question file *)

(** The Python value that [json.load] builds (numbers are the integers). *)
#[local] Unset Elimination Schemes.
Inductive json :=
  | JNull
  | JBool (b : bool)
  | JNumber (z : Z)
  | JString (s : string)
  | JArray (items : list json)
  | JObject (fields : list (string * json)).
#[local] Set Elimination Schemes.

(** What the operating system and the JSON parser do for a path:
    [os.path.exists] is false, or [open]/[read] raises, or the text is not
    JSON, or it parses to a value. *)
Inductive source :=
  | NotFound
  | Unreadable (msg : string)
  | Malformed (msg : string)
  | Document (data : json).

Fixpoint assoc (key : string) (fields : list (string * json)) : option json :=
  match fields with
  | [] => None
  | (k, v) :: rest => if decide (k = key) then Some v else assoc key rest
  end.

Definition type_name (data : json) : string :=
  match data with
  | JNull => "NoneType"
  | JBool _ => "bool"
  | JNumber _ => "int"
  | JString _ => "str"
  | JArray _ => "list"
  | JObject _ => "dict"
  end.

(** [data.get(key, dflt)]: only a [dict] has the method. *)
Definition json_get (data : json) (key : string) (dflt : json) : exn + json :=
  match data with
  | JObject fields => inr (default dflt (assoc key fields))
  | _ => inl (AttributeError ("'" +:+ type_name data +:+
                              "' object has no attribute 'get'"))
  end.

(** The [try] block of [load_questions_from_json]; [None] is the [else]
    branch of [if os.path.exists(file_path)]. *)
Definition load_body (src : source) : exn + option json :=
  match src with
  | NotFound => inr None
  | Unreadable msg => inl (OSError msg)
  | Malformed msg => inl (JSONDecodeError msg)
  | Document data =>
      match json_get data "questions" (JArray []) with
      | inl e => inl e
      | inr v => inr (Some v)
      end
  end.

Definition exn_text (e : exn) : string :=
  match e with
  | IndexError => "list index out of range"
  | ValueError => "Sample larger than population or is negative"
  | AttributeError msg | JSONDecodeError msg | OSError msg => msg
  end.

(** The body of [load_questions_from_json]: the loaded value together with
    the messages sent to [st.error]. *)
Definition load_questions_uncached (fs : string → source) (file_path : string)
    : json * list notice :=
  match load_body (fs file_path) with
  | inr (Some questions) => (questions, [])
  | inr None =>
      (JArray [],
       [st_error ("Questions file '" +:+ file_path +:+
                  "' not found. Please make sure the file exists in the same directory as this script.")])
  | inl (JSONDecodeError msg) =>
      (JArray [], [st_error ("Error reading JSON file: " +:+ msg)])
  | inl e =>
      (JArray [], [st_error ("Error loading questions: " +:+ exn_text e)])
  end.

(** [load_questions_from_json] as decorated with [@st.cache_data]: the
    first call for a path runs the body and stores what it returned and the
    messages it sent under that path; a later call for the path does not run
    the body, returns the stored value and replays the stored messages.
    Nothing in the script clears the cache. *)
Definition load_questions_from_json (fs : string → source) (file_path : string)
    (cache : gmap string (json * list notice))
    : (json * list notice) * gmap string (json * list notice) :=
  match cache !! file_path with
  | Some hit => (hit, cache)
  | None =>
      let result := load_questions_uncached fs file_path in
      (result, <[file_path := result]> cache)
  end.

(** ** The earlier script [nascar_quiz.py]

    The earlier script has no categories: its difficulty filter reads the
    bank from the session state, [start_quiz] takes the difficulty only, and
    the answer record has no ["category"] key.  Its
    [load_questions_from_json], [calculate_difficulty_score], [reset_quiz]
    and its difficulty breakdown are the ones above, word for word.  The
    key [selected_category] does not exist there; in this model it is left
    as it is. *)

Module DifficultyOnly.

Definition filter_questions_by_difficulty
    (difficulty_level : string) (st : session_state) : list question :=
  if decide (difficulty_level = "mixed") then all_questions st
  else filter (λ q, lower (default "" (q_difficulty q)) = lower difficulty_level)
         (all_questions st).

Definition start_quiz (rnd : list nat) (difficulty_level : string) : M bool :=
  all ← gets all_questions;
  if decide (all = []) then
    emit (st_error "Cannot start quiz: No questions available.");;
    mret false
  else
    available_questions ← gets (filter_questions_by_difficulty difficulty_level);
    if decide (available_questions = []) then
      emit (st_error ("No questions available for " +:+ difficulty_level
                      +:+ " difficulty level."));;
      mret false
    else
      (if decide (length available_questions < 5) then
         emit (st_warning ("Only " +:+ pretty (length available_questions)
                           +:+ " questions available for " +:+ difficulty_level
                           +:+ " difficulty."))
       else mret tt);;
      modify (set_quiz_started true);;
      modify (set_current_question 0);;
      modify (set_score 0);;
      modify (set_answers []);;
      modify (set_selected_difficulty difficulty_level);;
      let num_questions := min 5 (length available_questions) in
      sample ← random_sample rnd available_questions num_questions;
      modify (set_quiz_questions sample);;
      mret true.

Definition answer_record (current_q : question) (selected_option : Z) : answer :=
  {| a_question := q_question current_q;
     a_selected := selected_option;
     a_correct := q_correct current_q;
     a_is_correct := bool_decide (selected_option = q_correct current_q);
     a_explanation := q_explanation current_q;
     a_difficulty := Some (default "medium" (q_difficulty current_q));
     a_category := None |}.

Definition submit_answer (selected_option : Z) : M unit :=
  questions ← gets quiz_questions;
  position ← gets current_question;
  current_q ← index questions position;
  let is_correct := bool_decide (selected_option = q_correct current_q) in
  (if is_correct then modify (λ st, set_score (score st + 1) st) else mret tt);;
  modify (λ st, set_answers (answers st ++ [answer_record current_q selected_option]) st);;
  modify (λ st, set_current_question (current_question st + 1) st).

End DifficultyOnly.

(** ** Definitions used to state the properties *)

(** The questions that [start_quiz] samples from. *)
Definition available (difficulty_level category : string) (st : session_state)
    : list question :=
  filter_questions_by_difficulty
    (filter_questions_by_category (all_questions st) category) difficulty_level.

(** The session that a successful [start_quiz] installs. *)
Definition started (rnd : list nat) (difficulty_level category : string)
    (st : session_state) : session_state :=
  {| quiz_started := true; current_question := 0; score := 0; answers := [];
     quiz_questions :=
       draw rnd (available difficulty_level category st)
         (min 5 (length (available difficulty_level category st)));
     questions_loaded := questions_loaded st;
     all_questions := all_questions st;
     selected_difficulty := difficulty_level;
     selected_category := category |}.

(** What [submit_answer] does to an in-progress session. *)
Definition answered (current_q : question) (selected_option : Z)
    (st : session_state) : session_state :=
  {| quiz_started := quiz_started st;
     current_question := current_question st + 1;
     score := if bool_decide (selected_option = q_correct current_q)
              then score st + 1 else score st;
     answers := answers st ++ [answer_record current_q selected_option];
     quiz_questions := quiz_questions st;
     questions_loaded := questions_loaded st;
     all_questions := all_questions st;
     selected_difficulty := selected_difficulty st;
     selected_category := selected_category st |}.

(** [k] successive calls of [submit_answer], one per press of the submit
    button, with the selected options in order. *)
Fixpoint submit_answers (selections : list Z) : M unit :=
  match selections with
  | [] => mret tt
  | selected_option :: rest => submit_answer selected_option;; submit_answers rest
  end.

Definition correct_count (log : list answer) : nat :=
  length (filter (λ a, a_is_correct a = true) log).

(** The weighting as the specification words it: one point for easy, two for
    medium, three for hard, compared without regard to case, and two for any
    other or absent difficulty. *)
Definition spec_weight (difficulty : option string) : nat :=
  match difficulty with
  | None => 2
  | Some d =>
      if decide (lower d = "easy") then 1
      else if decide (lower d = "medium") then 2
      else if decide (lower d = "hard") then 3
      else 2
  end.

Definition spec_earned (log : list answer) : nat :=
  sum_list (map (λ a, if a_is_correct a then spec_weight (a_difficulty a) else 0) log).

Definition spec_possible (log : list answer) : nat :=
  sum_list (map (λ a, spec_weight (a_difficulty a)) log).

(** The weight that [calculate_difficulty_score] gives to a drawn question. *)
Definition question_weight (q : question) : nat :=
  default 2 (difficulty_weights !! lower (default "medium" (q_difficulty q))).

(** [a] carries the difficulty that [submit_answer] copies from [q]. *)
Definition logged (q : question) (a : answer) : Prop :=
  a_difficulty a = Some (default "medium" (q_difficulty q)).

Definition canonical_difficulties : gset string := {[ "easy"; "medium"; "hard" ]}.

(** The key under which the results screen files an answer. *)
Definition difficulty_key (a : answer) : string :=
  lower (default "medium" (a_difficulty a)).

Definition correct_of (key : string) (log : list answer) : nat :=
  length (filter (λ a, difficulty_key a = key ∧ a_is_correct a = true) log).

Definition total_of (key : string) (log : list answer) : nat :=
  length (filter (λ a, difficulty_key a = key) log).

(** The questions that carry a category. *)
Definition with_category (questions : list question) : list question :=
  filter (λ q, is_Some (q_category q)) questions.

(** ** Sample data *)

Definition one_question_session : session_state :=
  {| quiz_started := true; current_question := 0; score := 0; answers := [];
     quiz_questions :=
       [Question "Who won the first Daytona 500?"
          ["Lee Petty"; "Richard Petty"] 0 "Lee Petty won in 1959."
          (Some "easy") (Some "History")];
     questions_loaded := true;
     all_questions :=
       [Question "Who won the first Daytona 500?"
          ["Lee Petty"; "Richard Petty"] 0 "Lee Petty won in 1959."
          (Some "easy") (Some "History")];
     selected_difficulty := "mixed"; selected_category := "all" |}.

Definition completed_session : session_state :=
  set_current_question 1 one_question_session.

Definition completed_answered_session : session_state :=
  answered
    (Question "Who won the first Daytona 500?"
       ["Lee Petty"; "Richard Petty"] 0 "Lee Petty won in 1959."
       (Some "easy") (Some "History")) 0 one_question_session.

Definition bank_state (bank : list question) : session_state :=
  {| quiz_started := false; current_question := 0; score := 0; answers := [];
     quiz_questions := []; questions_loaded := true; all_questions := bank;
     selected_difficulty := "mixed"; selected_category := "all" |}.

Definition sample_bank : list question :=
  [ Question "Who won the first Daytona 500?"
      ["Lee Petty"; "Richard Petty"] 0 "Lee Petty won in 1959."
      (Some "easy") (Some "History");
    Question "Which track is called The Lady in Black?"
      ["Darlington"; "Bristol"; "Talladega"] 0 "Darlington Raceway."
      (Some "Hard") (Some "Tracks");
    Question "How many points races are in the Chase?"
      ["8"; "10"] 1 "Ten races." None None ].

Definition easy_hard_bank : list question :=
  [ Question "e1" ["a"; "b"] 0 "x" (Some "easy") (Some "History");
    Question "h1" ["a"; "b"] 1 "x" (Some "hard") (Some "History");
    Question "e2" ["a"; "b"] 0 "x" (Some "easy") (Some "Tracks");
    Question "e3" ["a"; "b"] 1 "x" (Some "easy") (Some "Drivers");
    Question "h2" ["a"; "b"] 0 "x" (Some "hard") (Some "Cars") ].

Definition easy_hard_session : session_state :=
  {| quiz_started := true; current_question := 2; score := 1;
     answers :=
       [ answer_record (Question "e1" ["a"; "b"] 0 "x" (Some "easy") (Some "History")) 0;
         answer_record (Question "h1" ["a"; "b"] 1 "x" (Some "hard") (Some "History")) 0 ];
     quiz_questions :=
       [ Question "e1" ["a"; "b"] 0 "x" (Some "easy") (Some "History");
         Question "h1" ["a"; "b"] 1 "x" (Some "hard") (Some "History") ];
     questions_loaded := true; all_questions := easy_hard_bank;
     selected_difficulty := "mixed"; selected_category := "all" |}.

(** A log whose record says easy, held against a drawn hard question. *)
Definition easy_claimed_log : list answer :=
  [ answer_record (Question "e1" ["a"; "b"] 0 "x" (Some "easy") (Some "History")) 0 ].

Definition hard_drawn_session : session_state :=
  {| quiz_started := true; current_question := 1; score := 1;
     answers := easy_claimed_log;
     quiz_questions :=
       [ Question "h1" ["a"; "b"] 1 "x" (Some "hard") (Some "History") ];
     questions_loaded := true; all_questions := easy_hard_bank;
     selected_difficulty := "mixed"; selected_category := "all" |}.

(** A question without a difficulty, answered correctly. *)
Definition undated_question : question :=
  Question "How many points races are in the Chase?"
    ["8"; "10"] 1 "Ten races." None (Some "Rules").

Definition one_question_document : json :=
  JObject [("version", JNumber 1);
           ("questions",
            JArray [JObject [("question", JString "Who won the first Daytona 500?");
                             ("options", JArray [JString "Lee Petty"; JString "Richard Petty"]);
                             ("correct", JNumber 0);
                             ("explanation", JString "Lee Petty won in 1959.")]])].

(** * The rest of the script *)

(** ** Initialisation *)

Definition set_questions_loaded (b : bool) (st : session_state) : session_state :=
  {| quiz_started := quiz_started st; current_question := current_question st;
     score := score st; answers := answers st;
     quiz_questions := quiz_questions st;
     questions_loaded := b;
     all_questions := all_questions st;
     selected_difficulty := selected_difficulty st;
     selected_category := selected_category st |}.

Definition set_all_questions (l : list question) (st : session_state) : session_state :=
  {| quiz_started := quiz_started st; current_question := current_question st;
     score := score st; answers := answers st;
     quiz_questions := quiz_questions st;
     questions_loaded := questions_loaded st;
     all_questions := l;
     selected_difficulty := selected_difficulty st;
     selected_category := selected_category st |}.

Definition emit_all (out : list notice) : M unit := λ st, Returned tt st out.

(** [initialize_questions].  The call [load_questions_from_json()] is given
    by its result: the list [loaded] it returns, read as question records,
    and the messages [out] it sends. *)
Definition initialize_questions (loaded : list question) (out : list notice)
    : M bool :=
  flag ← gets questions_loaded;
  if negb flag then
    emit_all out;;
    modify (set_all_questions loaded);;
    modify (set_questions_loaded true);;
    all ← gets all_questions;
    if decide (all = []) then
      emit (st_warning "No questions loaded. Please check your questions file.");;
      mret false
    else mret true
  else mret true.

(** ** The three screens

    The body of the script shows the welcome screen when no quiz is
    started, the question screen while the position is below the number of
    drawn questions, and the results screen otherwise. *)

Inductive screen := Welcome | InProgress | Results.

Definition current_screen (st : session_state) : screen :=
  if negb (quiz_started st) then Welcome
  else if decide (current_question st < length (quiz_questions st)) then InProgress
  else Results.

(** What one interaction does to the session state: the first run or the
    reload button loads a bank; the start button of the welcome screen calls
    [start_quiz]; the submit button of the question screen calls
    [submit_answer] with one of the offered options
    ([range(len(current_q["options"]))]); the buttons of the results screen
    and the quit button of the sidebar, shown while a quiz is started, call
    [reset_quiz]. *)
Inductive ui_step : session_state → session_state → Prop :=
  | ui_load loaded out st b st' out' :
      initialize_questions loaded out (set_questions_loaded false st)
      = Returned b st' out' →
      ui_step st st'
  | ui_start rnd difficulty_level category st b st' out :
      current_screen st = Welcome →
      start_quiz rnd difficulty_level category st = Returned b st' out →
      ui_step st st'
  | ui_submit selected_option st current_q st' out :
      current_screen st = InProgress →
      quiz_questions st !! current_question st = Some current_q →
      (0 ≤ selected_option < Z.of_nat (length (q_options current_q)))%Z →
      submit_answer selected_option st = Returned tt st' out →
      ui_step st st'
  | ui_reset st st' out :
      quiz_started st = true →
      reset_quiz st = Returned tt st' out →
      ui_step st st'.

(** The states that the script can be in. *)
Definition reachable (st : session_state) : Prop := rtc ui_step initial_state st.

(** [a] is the record of an offered option of [q]. *)
Definition recorded (q : question) (a : answer) : Prop :=
  ∃ selected_option : Z,
    a = answer_record q selected_option
    ∧ (0 ≤ selected_option < Z.of_nat (length (q_options q)))%Z.

Record session_ok (st : session_state) : Prop := {
  ok_position : current_question st = length (answers st);
  ok_bound : current_question st ≤ length (quiz_questions st);
  ok_score : score st = correct_count (answers st);
  ok_drawn : length (quiz_questions st) ≤ 5;
  ok_started : quiz_started st = true → quiz_questions st ≠ [];
  ok_idle : quiz_started st = false → quiz_questions st = [];
  ok_log : Forall2 recorded (take (length (answers st)) (quiz_questions st))
             (answers st)
}.

(** ** The results screen *)

(** [options[i]] for a Python integer: a negative index counts from the
    end. *)
Definition option_at (options : list string) (i : Z) : exn + string :=
  let n := Z.of_nat (length options) in
  let position :=
    if decide (0 ≤ i < n)%Z then Some (Z.to_nat i)
    else if decide (- n ≤ i < 0)%Z then Some (Z.to_nat (n + i))
    else None in
  match position ≫= (options !!.) with
  | Some text => inr text
  | None => inl IndexError
  end.

(** The two option texts shown for answer number [i] (counted from 1) in
    the detailed results: the selected one and the correct one. *)
Definition detailed_result (st : session_state) (i : nat) (a : answer)
    : exn + (string * string) :=
  match quiz_questions st !! (i - 1) with
  | None => inl IndexError
  | Some q =>
      match option_at (q_options q) (a_selected a) with
      | inl e => inl e
      | inr yours =>
          match option_at (q_options q) (a_correct a) with
          | inl e => inl e
          | inr expected => inr (yours, expected)
          end
      end
  end.

(** The loop [for i, answer in enumerate(st.session_state.answers, 1)],
    from number [i] on. *)
Fixpoint detailed_results_from (st : session_state) (i : nat) (log : list answer)
    : exn + list (string * string) :=
  match log with
  | [] => inr []
  | a :: rest =>
      match detailed_result st i a with
      | inl e => inl e
      | inr row =>
          match detailed_results_from st (S i) rest with
          | inl e => inl e
          | inr rows => inr (row :: rows)
          end
      end
  end.

Definition detailed_results (st : session_state) : exn + list (string * string) :=
  detailed_results_from st 1 (answers st).

(** ** Counting helpers *)

(** [sum(stats.values())]. *)
Definition stats_total (stats : gmap string nat) : nat :=
  sum_list ((map_to_list stats).*2).

(** One step of the loops of [get_difficulty_stats] and
    [get_category_stats], for the key that the loop reads. *)
Definition tally_step (key : question → string)
    (stats : gmap string nat) (q : question) : gmap string nat :=
  <[key q := default 0 (stats !! key q) + 1]> stats.

Definition key_count (key : question → string)
    (k : string) (questions : list question) : nat :=
  length (filter (λ q, key q = k) questions).

Definition count_difficulty (key : string) (questions : list question) : nat :=
  length (filter (λ q, lower (default "unknown" (q_difficulty q)) = key) questions).

Definition count_category (key : string) (questions : list question) : nat :=
  length (filter (λ q, default "Unknown" (q_category q) = key) questions).

(** The state that [reset_quiz] leaves. *)
Definition reset_state (st : session_state) : session_state :=
  {| quiz_started := false; current_question := 0; score := 0; answers := [];
     quiz_questions := [];
     questions_loaded := questions_loaded st;
     all_questions := all_questions st;
     selected_difficulty := selected_difficulty st;
     selected_category := selected_category st |}.

(** The weights of the drawn questions against a log, as
    [calculate_difficulty_score] adds them up. *)
Definition weights_earned (questions : list question) (log : list answer) : nat :=
  sum_list (zip_with (λ q a, if a_is_correct a then question_weight q else 0)
              questions log).

Definition weights_possible (questions : list question) (log : list answer) : nat :=
  sum_list (zip_with (λ q _, question_weight q) questions log).

Definition category_key (a : answer) : string := default "Unknown" (a_category a).

(** One iteration of the loop that fills [category_breakdown]. *)
Definition category_step (m : gmap string (nat * nat)) (a : answer)
    : gmap string (nat * nat) :=
  let cat := default "Unknown" (a_category a) in
  let m1 := if decide (is_Some (m !! cat)) then m else <[cat := (0, 0)]> m in
  let m2 := alter (λ ct, (ct.1, ct.2 + 1)) cat m1 in
  if a_is_correct a then alter (λ ct, (ct.1 + 1, ct.2)) cat m2 else m2.

(** * Properties *)

(** ** Running the monad *)

Ltac unfold_quiz :=
  unfold mbind, M_bind, mret, M_ret, bind, ret, gets, modify, emit, raise,
    index in *.

Lemma index_Some {A} (l : list A) i x st :
  l !! i = Some x → index l i st = Returned x st [].
Proof. intros H. unfold index. by rewrite H. Qed.

Lemma index_None {A} (l : list A) i st :
  l !! i = None → index l i st = Raised IndexError st [].
Proof. intros H. unfold index. by rewrite H. Qed.

Lemma random_sample_min {A} rnd (population : list A) st :
  random_sample rnd population (min 5 (length population)) st
  = Returned (draw rnd population (min 5 (length population))) st [].
Proof. unfold random_sample. case_decide; [lia | done]. Qed.

(** [start_quiz] never raises; it returns [False] from one of its two guards
    and [True] otherwise. *)
Lemma start_quiz_cases rnd difficulty_level category st :
  (all_questions st = [] ∧
   start_quiz rnd difficulty_level category st
   = Returned false st [st_error "Cannot start quiz: No questions available."])
  ∨ (all_questions st ≠ [] ∧ available difficulty_level category st = [] ∧
     ∃ msg, start_quiz rnd difficulty_level category st
            = Returned false st [st_error msg])
  ∨ (all_questions st ≠ [] ∧ available difficulty_level category st ≠ [] ∧
     ∃ out, start_quiz rnd difficulty_level category st
            = Returned true (started rnd difficulty_level category st) out).
Proof.
  unfold start_quiz, started, available. unfold_quiz. simpl.
  set (av := filter_questions_by_difficulty _ _).
  destruct (decide (all_questions st = [])) as [Hall|Hall].
  { left. split; [done|]. by destruct st. }
  right. destruct (decide (av = [])) as [Hav|Hav].
  { left. do 2 (split; [done|]). eexists. by destruct st. }
  right. do 2 (split; [done|]).
  pose proof (random_sample_min rnd av) as Hs. unfold_quiz.
  destruct (decide (length av < 5)); simpl; rewrite Hs; simpl;
    eexists; reflexivity.
Qed.

(** ** Counting *)

Lemma filtered_count_length (difficulty category : string) (st : session_state) :
  get_filtered_question_count difficulty category st
  = length (filter_questions_by_difficulty
              (filter_questions_by_category (all_questions st) category)
              difficulty).
Proof.
  unfold get_filtered_question_count, filter_questions_by_category,
    filter_questions_by_difficulty.
  repeat case_decide; done.
Qed.

(** ** Answering *)

(** C1. Once the position has reached the number of drawn questions,
    [submit_answer] fails: the lookup of the current question raises
    [IndexError] (the completed-session failure) before anything is written,
    so position, score, answer log and drawn questions are what they were,
    and a repeated call fails in the same way on the same state. *)
Theorem submit_answer_after_completion (selected_option : Z) (st : session_state) :
  length (quiz_questions st) ≤ current_question st →
  submit_answer selected_option st = Raised IndexError st []
  ∧ ∀ again : Z, ∃ st',
      submit_answer selected_option st = Raised IndexError st' []
      ∧ current_question st' = current_question st
      ∧ score st' = score st
      ∧ answers st' = answers st
      ∧ quiz_questions st' = quiz_questions st
      ∧ submit_answer again st' = Raised IndexError st' [].
Proof.
  intros Hdone.
  assert (Hfail : ∀ sel, submit_answer sel st = Raised IndexError st []).
  { intros sel. unfold submit_answer.
    unfold mbind, M_bind, bind, gets. simpl.
    by rewrite index_None by by apply lookup_ge_None. }
  split; [apply Hfail|].
  intros again. exists st. by rewrite !Hfail.
Qed.

Lemma submit_answer_after_completion_witness :
  length (quiz_questions completed_session) ≤ current_question completed_session
  ∧ submit_answer 0 completed_session = Raised IndexError completed_session [].
Proof.
  split; [simpl; lia|].
  apply (submit_answer_after_completion 0 completed_session). simpl. lia.
Defined.

Lemma submit_answer_in_progress selected_option st current_q :
  quiz_questions st !! current_question st = Some current_q →
  submit_answer selected_option st
  = Returned tt (answered current_q selected_option st) [].
Proof.
  intros Hq. unfold submit_answer.
  unfold mbind, M_bind, bind, gets. simpl.
  rewrite (index_Some _ _ _ _ Hq). unfold answered.
  by destruct (bool_decide (selected_option = q_correct current_q)).
Qed.

(** C2 (as amended). [submit_answer] has no range check on the selected
    index: on an in-progress session it succeeds for every integer, inside
    or outside the range of the options; it appends one record holding that
    index, marks it correct exactly when the index equals the question's
    correct index, adds one to the score in that case only, and advances the
    position by one. *)
Theorem submit_answer_accepts_every_choice
    (selected_option : Z) (st : session_state) (current_q : question) :
  quiz_questions st !! current_question st = Some current_q →
  ∃ st', submit_answer selected_option st = Returned tt st' []
    ∧ current_question st' = current_question st + 1
    ∧ answers st' = answers st ++ [answer_record current_q selected_option]
    ∧ a_selected (answer_record current_q selected_option) = selected_option
    ∧ (a_is_correct (answer_record current_q selected_option) = true
       ↔ selected_option = q_correct current_q)
    ∧ score st' = (if bool_decide (selected_option = q_correct current_q)
                   then score st + 1 else score st)
    ∧ quiz_questions st' = quiz_questions st.
Proof.
  intros Hq. exists (answered current_q selected_option st).
  rewrite (submit_answer_in_progress _ _ _ Hq). simpl.
  repeat split; try done.
  - by intros ?%bool_decide_eq_true.
  - by intros ?; apply bool_decide_eq_true.
Qed.

Lemma submit_answer_accepts_every_choice_witness :
  ∃ st', submit_answer 7 one_question_session = Returned tt st' []
    ∧ current_question st' = 1 ∧ score st' = 0 ∧ length (answers st') = 1.
Proof.
  destruct (submit_answer_accepts_every_choice 7 one_question_session
              (Question "Who won the first Daytona 500?"
                 ["Lee Petty"; "Richard Petty"] 0 "Lee Petty won in 1959."
                 (Some "easy") (Some "History")) eq_refl)
    as (st' & Hrun & Hpos & Hlog & _ & _ & Hscore & _).
  exists st'. repeat split; [done|done|done|].
  rewrite Hlog. reflexivity.
Defined.

(** C2 (as stated) fails: index [7] is outside the two options of the
    current question, yet the call does not fail, and it moves the position
    and extends the answer log. *)
Lemma submit_answer_out_of_range_counterexample :
  quiz_questions one_question_session !! current_question one_question_session
  = Some (Question "Who won the first Daytona 500?"
            ["Lee Petty"; "Richard Petty"] 0 "Lee Petty won in 1959."
            (Some "easy") (Some "History"))
  ∧ ¬ (0 ≤ 7 < 2)%Z
  ∧ (∀ e st' out, submit_answer 7 one_question_session ≠ Raised e st' out)
  ∧ ∃ st', submit_answer 7 one_question_session = Returned tt st' []
      ∧ current_question st' ≠ current_question one_question_session
      ∧ answers st' ≠ answers one_question_session.
Proof.
  split; [reflexivity|]. split; [lia|]. split.
  - intros e st' out. vm_compute. discriminate.
  - eexists. split; [vm_compute; reflexivity|]. split; simpl; [lia|discriminate].
Qed.

Lemma correct_count_app log1 log2 :
  correct_count (log1 ++ log2) = correct_count log1 + correct_count log2.
Proof. unfold correct_count. by rewrite filter_app, length_app. Qed.

Lemma correct_count_record current_q selected_option :
  correct_count [answer_record current_q selected_option]
  = if bool_decide (selected_option = q_correct current_q) then 1 else 0.
Proof.
  unfold correct_count. rewrite filter_cons. simpl.
  by destruct (bool_decide (selected_option = q_correct current_q)).
Qed.

(** The calls succeed as long as questions remain, and each one extends the
    log by the record of the question at the current position. *)
Lemma submit_answers_run (selections : list Z) : ∀ st : session_state,
  current_question st + length selections ≤ length (quiz_questions st) →
  ∃ st', submit_answers selections st = Returned tt st' []
    ∧ current_question st' = current_question st + length selections
    ∧ answers st'
      = answers st ++ zip_with answer_record
                        (drop (current_question st) (quiz_questions st)) selections
    ∧ score st' = score st + correct_count
                    (zip_with answer_record
                       (drop (current_question st) (quiz_questions st)) selections)
    ∧ quiz_questions st' = quiz_questions st.
Proof.
  induction selections as [|sel rest IH]; intros st Hlen; simpl in *.
  { exists st. destruct (drop _ _); simpl; rewrite ?app_nil_r;
      repeat split; try done; unfold correct_count; simpl; lia. }
  destruct (lookup_lt_is_Some_2 (quiz_questions st) (current_question st))
    as [current_q Hq]; [lia|].
  destruct (IH (answered current_q sel st)) as (st' & Hrun & Hpos & Hlog & Hsc & Hqs);
    [simpl; lia|].
  exists st'. unfold mbind, M_bind, bind.
  rewrite (submit_answer_in_progress _ _ _ Hq), Hrun. simpl in *.
  rewrite (drop_S _ _ _ Hq). simpl.
  replace (current_question st + 1) with (S (current_question st)) in * by lia.
  repeat split; try done.
  - lia.
  - by rewrite Hlog, <- app_assoc.
  - rewrite Hsc.
    change (answer_record current_q sel :: ?l)
      with ([answer_record current_q sel] ++ l).
    rewrite correct_count_app, correct_count_record.
    destruct (bool_decide (sel = q_correct current_q)); lia.
Qed.

Lemma answer_record_correct current_q selected_option :
  a_is_correct (answer_record current_q selected_option) = true
  ↔ a_selected (answer_record current_q selected_option)
    = a_correct (answer_record current_q selected_option).
Proof. simpl. apply bool_decide_eq_true. Qed.

(** C3. After a successful [start_quiz], any [k] answers with [k] at most the
    number of drawn questions all succeed, and then the position and the
    length of the answer log are both [k], the score is the number of
    records marked correct, record [i] is the one built from drawn question
    [i], and a record is marked correct exactly when its selected index is
    its question's correct index. *)
Theorem session_counts_after_answers
    (rnd : list nat) (difficulty_level category : string)
    (st0 st : session_state) (out : list notice) (selections : list Z) :
  start_quiz rnd difficulty_level category st0 = Returned true st out →
  length selections ≤ length (quiz_questions st) →
  ∃ st', submit_answers selections st = Returned tt st' []
    ∧ current_question st' = length selections
    ∧ length (answers st') = length selections
    ∧ score st' = correct_count (answers st')
    ∧ answers st' = zip_with answer_record (quiz_questions st) selections
    ∧ Forall (λ a, a_is_correct a = true ↔ a_selected a = a_correct a)
        (answers st').
Proof.
  intros Hstart Hlen.
  assert (Hst : st = started rnd difficulty_level category st0).
  { destruct (start_quiz_cases rnd difficulty_level category st0)
      as [[_ H]|[(_ & _ & ? & H)|(_ & _ & ? & H)]]; congruence. }
  assert (Hfresh : current_question st = 0 ∧ score st = 0 ∧ answers st = [])
    by (by rewrite Hst).
  destruct Hfresh as (Hpos0 & Hsc0 & Hlog0).
  destruct (submit_answers_run selections st) as (st' & Hrun & Hpos & Hlog & Hsc & _);
    [lia|].
  rewrite Hpos0, Hlog0 in *. rewrite Hsc0 in Hsc. rewrite drop_0 in *.
  simpl in *.
  exists st'. rewrite Hlog. repeat split; try done.
  - rewrite length_zip_with. lia.
  - clear. generalize (quiz_questions st). induction selections as [|sel rest IH];
      intros [|q qs]; simpl; try by constructor.
    constructor; [apply answer_record_correct | apply IH].
Qed.

Lemma session_counts_after_answers_witness :
  ∃ st', submit_answers [0%Z; 1%Z]
           (started [2; 0; 0] "mixed" "all" (bank_state sample_bank))
         = Returned tt st' []
    ∧ current_question st' = 2 ∧ length (answers st') = 2
    ∧ score st' = correct_count (answers st').
Proof.
  destruct (session_counts_after_answers [2; 0; 0] "mixed" "all"
              (bank_state sample_bank)
              (started [2; 0; 0] "mixed" "all" (bank_state sample_bank))
              [st_warning "Only 3 questions available for mixed difficulty in all category."]
              [0%Z; 1%Z])
    as (st' & Hrun & Hpos & Hlen & Hscore & _).
  - vm_compute. reflexivity.
  - vm_compute. lia.
  - exists st'. repeat split; assumption.
Defined.

(** ** Drawing the questions *)

Section Draw.
Context {A : Type}.
Implicit Types (pool drawn : list A) (rnd : list nat).

Lemma draw_length k : ∀ rnd pool,
  k ≤ length pool → length (draw rnd pool k) = k.
Proof.
  induction k as [|k IH]; intros rnd pool Hk; simpl; [done|].
  assert (Hj : hd 0 rnd `mod` length pool < length pool)
    by (apply Nat.mod_upper_bound; lia).
  destruct (lookup_lt_is_Some_2 _ _ Hj) as [x Hx]. rewrite Hx. simpl.
  rewrite IH; [done|]. rewrite length_delete by eauto. lia.
Qed.

(** No position of the pool is used twice: the drawn list is contained in
    the pool as a multiset. *)
Lemma draw_submseteq k : ∀ rnd pool, draw rnd pool k ⊆+ pool.
Proof.
  induction k as [|k IH]; intros rnd pool; simpl.
  { apply submseteq_nil_l. }
  destruct (pool !! _) as [x|] eqn:Hx; [|apply submseteq_nil_l].
  trans (x :: delete (hd 0 rnd `mod` length pool) pool).
  - apply submseteq_skip, IH.
  - apply Permutation_submseteq. symmetry. by apply delete_Permutation.
Qed.

Lemma submseteq_NoDup drawn pool : drawn ⊆+ pool → NoDup pool → NoDup drawn.
Proof.
  intros [rest Hperm]%submseteq_Permutation Hnd.
  rewrite Hperm in Hnd. by apply NoDup_app in Hnd as [? _].
Qed.

(** Conversely every selection without replacement is drawn by some
    generator, so the model leaves out no behaviour of [random.sample]. *)
Lemma draw_complete drawn : ∀ pool,
  drawn ⊆+ pool → ∃ rnd, draw rnd pool (length drawn) = drawn.
Proof.
  induction drawn as [|x drawn IH]; intros pool Hsub; simpl.
  { by exists []. }
  apply submseteq_cons_l in Hsub as (pool' & Hperm & Hsub).
  assert (x ∈ pool) as [j Hj]%list_elem_of_lookup
    by (rewrite Hperm; left).
  assert (Hrest : drawn ⊆+ delete j pool).
  { rewrite Hsub. apply Permutation_submseteq.
    apply (Permutation_cons_inv (a := x)).
    by rewrite <- Hperm, <- delete_Permutation. }
  destruct (IH _ Hrest) as [rnd Hrnd].
  exists (j :: rnd). simpl.
  rewrite Nat.mod_small by by eapply lookup_lt_Some.
  by rewrite Hj, Hrnd.
Qed.
End Draw.

(** C4. When [start_quiz] succeeds, the drawn list has exactly
    [min(5, number of matching questions)] entries; the entries are taken
    from the filtered list without using any of its entries twice, so the
    drawn list repeats nothing that the filtered list does not repeat and
    every drawn question matches the filters; and when at most five
    questions match, the drawn list is the whole filtered list in some
    order. *)
Theorem start_quiz_draws_from_filtered
    (rnd : list nat) (difficulty_level category : string)
    (st st' : session_state) (out : list notice) :
  start_quiz rnd difficulty_level category st = Returned true st' out →
  let matching := filter_questions_by_difficulty
                    (filter_questions_by_category (all_questions st) category)
                    difficulty_level in
  length (quiz_questions st') = min 5 (length matching)
  ∧ length matching = get_filtered_question_count difficulty_level category st
  ∧ quiz_questions st' ⊆+ matching
  ∧ (NoDup matching → NoDup (quiz_questions st'))
  ∧ (∀ q, q ∈ quiz_questions st' → q ∈ matching)
  ∧ (length matching ≤ 5 → quiz_questions st' ≡ₚ matching).
Proof.
  intros Hstart matching.
  assert (Hst : st' = started rnd difficulty_level category st).
  { destruct (start_quiz_cases rnd difficulty_level category st)
      as [[_ H]|[(_ & _ & ? & H)|(_ & _ & ? & H)]]; congruence. }
  subst st'.
  change (quiz_questions (started rnd difficulty_level category st))
    with (draw rnd matching (min 5 (length matching))).
  pose proof (draw_submseteq (min 5 (length matching)) rnd matching) as Hsub.
  pose proof (draw_length (min 5 (length matching)) rnd matching
                ltac:(lia)) as Hlen.
  split; [done|]. split; [by rewrite filtered_count_length|].
  split; [done|]. split; [|split].
  - intros Hnd. by eapply submseteq_NoDup.
  - intros q Hq. by eapply elem_of_submseteq.
  - intros Hall. apply submseteq_length_Permutation; [done|]. lia.
Qed.

(** The bank with three easy and two hard questions, filtered on easy. *)
Lemma start_quiz_draws_from_filtered_witness :
  length (quiz_questions (started [4; 1] "easy" "all" (bank_state easy_hard_bank))) = 3
  ∧ get_filtered_question_count "easy" "all" (bank_state easy_hard_bank) = 3
  ∧ quiz_questions (started [4; 1] "easy" "all" (bank_state easy_hard_bank))
    ≡ₚ filter_questions_by_difficulty
         (filter_questions_by_category easy_hard_bank "all") "easy".
Proof.
  destruct (start_quiz_draws_from_filtered [4; 1] "easy" "all"
              (bank_state easy_hard_bank)
              (started [4; 1] "easy" "all" (bank_state easy_hard_bank))
              [st_warning "Only 3 questions available for easy difficulty in all category."])
    as (Hlen & Hcount & _ & _ & _ & Hall).
  - vm_compute. reflexivity.
  - split; [exact Hlen|]. split; [reflexivity|].
    apply Hall. vm_compute. lia.
Defined.

(** ** Counting the matching questions *)

Lemma filter_category_difficulty_comm (questions : list question) difficulty category :
  filter_questions_by_category
    (filter_questions_by_difficulty questions difficulty) category
  = filter_questions_by_difficulty
      (filter_questions_by_category questions category) difficulty.
Proof.
  unfold filter_questions_by_category, filter_questions_by_difficulty.
  repeat case_decide; try done.
  rewrite !list_filter_filter. apply list_filter_iff. tauto.
Qed.

(** C5. The count shown by [get_filtered_question_count] is the length of
    the bank filtered by difficulty and then by category, and also the
    length of the bank filtered by category and then by difficulty: the two
    filters commute (they even give the same list). *)
Theorem filtered_count_commutes
    (difficulty category : string) (st : session_state) :
  get_filtered_question_count difficulty category st
  = length (filter_questions_by_category
              (filter_questions_by_difficulty (all_questions st) difficulty)
              category)
  ∧ get_filtered_question_count difficulty category st
    = length (filter_questions_by_difficulty
                (filter_questions_by_category (all_questions st) category)
                difficulty)
  ∧ filter_questions_by_category
      (filter_questions_by_difficulty (all_questions st) difficulty) category
    = filter_questions_by_difficulty
        (filter_questions_by_category (all_questions st) category) difficulty.
Proof.
  rewrite filter_category_difficulty_comm.
  by rewrite filtered_count_length.
Qed.

(** ** Failing to start *)

(** C8. When [start_quiz] returns [False], the session state is the one it
    was called on: drawn questions, position, score, answer log and the
    recorded filters are untouched.  This happens only when the bank is
    empty or no question matches the filters. *)
Theorem start_quiz_failure_keeps_state
    (rnd : list nat) (difficulty_level category : string)
    (st st' : session_state) (out : list notice) :
  start_quiz rnd difficulty_level category st = Returned false st' out →
  st' = st
  ∧ quiz_questions st' = quiz_questions st
  ∧ current_question st' = current_question st
  ∧ score st' = score st
  ∧ answers st' = answers st
  ∧ selected_difficulty st' = selected_difficulty st
  ∧ selected_category st' = selected_category st
  ∧ (all_questions st = []
     ∨ filter_questions_by_difficulty
         (filter_questions_by_category (all_questions st) category)
         difficulty_level = []).
Proof.
  intros Hstart.
  destruct (start_quiz_cases rnd difficulty_level category st)
    as [[Hall H]|[(_ & Hav & ? & H)|(_ & _ & ? & H)]];
    rewrite H in Hstart; [| |discriminate];
    injection Hstart as <- _; repeat split; auto.
Qed.

(** A session with one answer on record refuses a start for which nothing
    matches, and keeps the answer. *)
Lemma start_quiz_failure_keeps_state_witness :
  start_quiz [] "medium" "Tracks" completed_answered_session
  = Returned false completed_answered_session
      [st_error "No questions available for medium difficulty in Tracks category."]
  ∧ score completed_answered_session = 1
  ∧ length (answers completed_answered_session) = 1.
Proof.
  assert (Hrun : start_quiz [] "medium" "Tracks" completed_answered_session
            = Returned false completed_answered_session
                [st_error "No questions available for medium difficulty in Tracks category."])
    by (vm_compute; reflexivity).
  destruct (start_quiz_failure_keeps_state _ _ _ _ _ _ Hrun) as (_ & _ & _ & Hs & Ha & _).
  split; [exact Hrun|]. split; reflexivity.
Defined.

(** ** Weighted score *)

Lemma difficulty_weights_lookup (key : string) :
  difficulty_weights !! key
  = if decide (key = "easy") then Some 1
    else if decide (key = "medium") then Some 2
    else if decide (key = "hard") then Some 3
    else None.
Proof.
  unfold difficulty_weights. repeat case_decide; subst; try done.
  by rewrite !lookup_insert_ne, lookup_empty.
Qed.

Lemma question_weight_spec (q : question) :
  question_weight q = spec_weight (q_difficulty q)
  ∧ question_weight q = spec_weight (Some (default "medium" (q_difficulty q))).
Proof.
  unfold question_weight, spec_weight. rewrite difficulty_weights_lookup.
  destruct (q_difficulty q) as [d|]; simpl; repeat case_decide; done.
Qed.

Lemma score_loop_run (log : list answer) : ∀ (i total possible : nat) st,
  Forall2 logged (take (length log) (drop i (quiz_questions st))) log →
  score_loop i log total possible st
  = Returned (total + spec_earned log, possible + spec_possible log) st [].
Proof.
  unfold spec_earned, spec_possible.
  induction log as [|a log IH]; intros i total possible st Hlog; simpl.
  { unfold_quiz. do 3 f_equal; lia. }
  simpl in Hlog.
  destruct (drop i (quiz_questions st)) as [|q rest] eqn:Hdrop;
    [by apply Forall2_nil_cons_inv in Hlog|].
  apply Forall2_cons_1 in Hlog as [Hq Hrest].
  assert (Hi : quiz_questions st !! i = Some q).
  { pose proof (lookup_drop (quiz_questions st) i 0) as Hl.
    rewrite Hdrop, Nat.add_0_r in Hl. by rewrite <- Hl. }
  assert (Hdrop' : drop (S i) (quiz_questions st) = rest).
  { pose proof (drop_S _ _ _ Hi) as Hd. congruence. }
  unfold mbind, M_bind, bind, gets. simpl.
  rewrite (index_Some _ _ _ _ Hi).
  rewrite IH by by rewrite Hdrop'.
  fold (question_weight q).
  destruct (question_weight_spec q) as [_ ->]. rewrite <- Hq.
  destruct (a_is_correct a); simpl; f_equal; f_equal; lia.
Qed.

(** The log of a session that was started and answered is [logged]. *)
Lemma zip_with_record_logged (questions : list question) : ∀ selections : list Z,
  length selections ≤ length questions →
  Forall2 logged
    (take (length (zip_with answer_record questions selections)) questions)
    (zip_with answer_record questions selections).
Proof.
  induction questions as [|q questions IH]; intros [|sel selections] Hlen;
    simpl in *; try by constructor.
  constructor; [done|]. apply IH. lia.
Qed.

(** C6 (as amended). For the answer log of a session (each record carrying
    the difficulty that [submit_answer] copied from its drawn question),
    [calculate_difficulty_score] returns [(earned, possible)]: the weight of
    an answer is 1 for easy, 2 for medium, 3 for hard, compared in lower
    case, and 2 for any other difficulty or when the question has none;
    [earned] adds the weights of the correct answers and [possible] the
    weights of all answers. *)
Theorem weighted_score_of_log (log : list answer) (st : session_state) :
  Forall2 logged (take (length log) (quiz_questions st)) log →
  calculate_difficulty_score log st
  = Returned (spec_earned log, spec_possible log) st []
  ∧ Forall2 (λ q a, spec_weight (a_difficulty a) = spec_weight (q_difficulty q))
      (take (length log) (quiz_questions st)) log.
Proof.
  intros Hlog. split.
  - unfold calculate_difficulty_score.
    by rewrite (score_loop_run log 0 0 0 st) by by rewrite drop_0.
  - eapply Forall2_impl; [exact Hlog|].
    intros q a Hq. rewrite Hq.
    destruct (question_weight_spec q) as [<- <-]. done.
Qed.

(** One correct easy answer and one incorrect hard answer: 1 out of 4. *)
Lemma weighted_score_of_log_witness :
  map a_is_correct (answers easy_hard_session) = [true; false]
  ∧ calculate_difficulty_score (answers easy_hard_session) easy_hard_session
    = Returned (1, 4) easy_hard_session [].
Proof.
  split; [reflexivity|].
  destruct (weighted_score_of_log (answers easy_hard_session) easy_hard_session)
    as [Hrun _].
  - repeat constructor.
  - rewrite Hrun. reflexivity.
Defined.

(** C6 (as stated) fails for a log that was not recorded from the drawn
    questions: the weight is read from the drawn question at the same
    position, never from the record.  The record is a correct easy answer
    (1 out of 1 by its own difficulty); the drawn question is hard, and the
    result is 3 out of 3. *)
Lemma weighted_score_other_log_counterexample :
  map a_difficulty easy_claimed_log = [Some "easy"]
  ∧ map a_is_correct easy_claimed_log = [true]
  ∧ (spec_earned easy_claimed_log, spec_possible easy_claimed_log) = (1, 1)
  ∧ calculate_difficulty_score easy_claimed_log hard_drawn_session
    = Returned (3, 3) hard_drawn_session []
  ∧ calculate_difficulty_score easy_claimed_log hard_drawn_session
    ≠ Returned (spec_earned easy_claimed_log, spec_possible easy_claimed_log)
        hard_drawn_session [].
Proof.
  split; [reflexivity|]. split; [reflexivity|]. split; [reflexivity|].
  split; [vm_compute; reflexivity|]. vm_compute. discriminate.
Qed.

(** A session that was started and then answered has a [logged] log. *)
Lemma session_log_logged rnd difficulty_level category st0 st out selections st' :
  start_quiz rnd difficulty_level category st0 = Returned true st out →
  submit_answers selections st = Returned tt st' [] →
  length selections ≤ length (quiz_questions st) →
  Forall2 logged (take (length (answers st')) (quiz_questions st')) (answers st').
Proof.
  intros Hstart Hrun Hlen.
  assert (Hst : st = started rnd difficulty_level category st0).
  { destruct (start_quiz_cases rnd difficulty_level category st0)
      as [[_ H]|[(_ & _ & ? & H)|(_ & _ & ? & H)]]; congruence. }
  destruct (submit_answers_run selections st) as (st'' & Hrun' & _ & Hlog & _ & Hqs).
  { rewrite Hst at 1. simpl. lia. }
  assert (st'' = st') as -> by congruence.
  rewrite Hlog, Hqs. replace (answers st) with (@nil answer) by by rewrite Hst.
  replace (current_question st) with 0 by by rewrite Hst.
  rewrite drop_0. simpl. by apply zip_with_record_logged.
Qed.

(** ** Breakdown by difficulty *)

Lemma difficulty_breakdown_foldl (log : list answer) :
  difficulty_breakdown log
  = foldl breakdown_step
      (<["easy" := (0, 0)]> (<["medium" := (0, 0)]> (<["hard" := (0, 0)]> ∅))) log.
Proof. reflexivity. Qed.

Lemma breakdown_step_lookup m a key :
  breakdown_step m a !! key
  = (λ ct, (ct.1 + (if decide (difficulty_key a = key ∧ a_is_correct a = true)
                    then 1 else 0),
            ct.2 + (if decide (difficulty_key a = key) then 1 else 0)))
    <$> m !! key.
Proof.
  unfold breakdown_step. fold (difficulty_key a).
  destruct (decide (difficulty_key a = key)) as [Hkey|Hkey].
  - subst key.
    destruct (m !! difficulty_key a) as [[c t]|] eqn:Hm.
    + rewrite decide_True by eauto.
      destruct (a_is_correct a); rewrite ?lookup_alter_eq, Hm; simpl.
      * rewrite decide_True by done. f_equal; f_equal; lia.
      * rewrite decide_False by (intros [_ ?]; discriminate).
        f_equal; f_equal; lia.
    + rewrite decide_False by (by intros [? ?]). by rewrite Hm.
  - rewrite (decide_False (P := _ ∧ _)) by (by intros [? _]).
    assert (Hid : (λ ct : nat * nat, (ct.1 + 0, ct.2 + 0)) <$> m !! key = m !! key).
    { destruct (m !! key) as [[c t]|]; simpl; [|done]. f_equal; f_equal; lia. }
    rewrite Hid.
    destruct (decide (is_Some (m !! difficulty_key a))); [|done].
    destruct (a_is_correct a); by rewrite ?lookup_alter_ne.
Qed.

Lemma breakdown_foldl_lookup (log : list answer) : ∀ m key,
  foldl breakdown_step m log !! key
  = (λ ct, (ct.1 + correct_of key log, ct.2 + total_of key log)) <$> m !! key.
Proof.
  unfold correct_of, total_of.
  induction log as [|a log IH]; intros m key; simpl.
  { destruct (m !! key) as [[c t]|]; simpl; [|done]. f_equal; f_equal; lia. }
  rewrite IH, breakdown_step_lookup, !filter_cons.
  destruct (m !! key) as [[c t]|]; simpl; [|done].
  repeat case_decide; simpl; f_equal; f_equal; lia.
Qed.

Lemma canonical_difficulties_elem (key : string) :
  key ∈ canonical_difficulties ↔ key = "easy" ∨ key = "medium" ∨ key = "hard".
Proof.
  unfold canonical_difficulties.
  rewrite !elem_of_union, !elem_of_singleton. tauto.
Qed.

(** C7 (as amended). The breakdown has exactly the keys easy, medium and
    hard; under each key it holds the number of correct answers and the
    number of answers whose recorded difficulty, in lower case, is that key.
    An answer whose difficulty is none of the three is left out of the
    breakdown.  An answer to a question without a difficulty is not left
    out: [submit_answer] records it as medium and it is counted under
    medium. *)
Theorem difficulty_breakdown_counts (log : list answer) :
  dom (difficulty_breakdown log) = canonical_difficulties
  ∧ (∀ key, key ∈ canonical_difficulties →
       difficulty_breakdown log !! key
       = Some (correct_of key log, total_of key log))
  ∧ difficulty_breakdown log
    = difficulty_breakdown
        (filter (λ a, difficulty_key a ∈ canonical_difficulties) log)
  ∧ (∀ q sel, q_difficulty q = None →
       difficulty_key (answer_record q sel) = "medium").
Proof.
  assert (Hlookup : ∀ l key,
    difficulty_breakdown l !! key
    = if decide (key ∈ canonical_difficulties)
      then Some (correct_of key l, total_of key l) else None).
  { intros l key. rewrite difficulty_breakdown_foldl, breakdown_foldl_lookup.
    case_decide as Hkey; rewrite canonical_difficulties_elem in Hkey.
    - by destruct Hkey as [-> | [-> | ->]].
    - rewrite !lookup_insert_ne, lookup_empty by (intros <-; tauto). done. }
  split; [|split; [|split]].
  - apply set_eq. intros key. rewrite elem_of_dom, Hlookup.
    case_decide; [by split|]. split; [by intros [? ?]|done].
  - intros key Hkey. rewrite Hlookup. by case_decide.
  - apply map_eq. intros key. rewrite !Hlookup. case_decide as Hkey; [|done].
    unfold correct_of, total_of. rewrite !list_filter_filter.
    do 2 f_equal; f_equal; apply list_filter_iff; intros a;
      split; try tauto; intros; intuition congruence.
  - intros q sel Hq. unfold difficulty_key. simpl. by rewrite Hq.
Qed.

Lemma difficulty_breakdown_counts_witness :
  difficulty_breakdown (answers easy_hard_session) !! "hard" = Some (0, 1)
  ∧ difficulty_breakdown (answers easy_hard_session) !! "easy" = Some (1, 1).
Proof.
  destruct (difficulty_breakdown_counts (answers easy_hard_session))
    as (_ & Hkeys & _).
  split.
  - rewrite (Hkeys "hard"); [reflexivity|].
    apply canonical_difficulties_elem. right; right; reflexivity.
  - rewrite (Hkeys "easy"); [reflexivity|].
    apply canonical_difficulties_elem. left; reflexivity.
Defined.

(** C7 (as stated) fails on the missing half: the question has no
    difficulty, and its answer is counted under medium instead of being
    excluded. *)
Lemma difficulty_breakdown_missing_counterexample :
  q_difficulty undated_question = None
  ∧ ∃ st', submit_answer 1 (set_quiz_questions [undated_question] one_question_session)
           = Returned tt st' []
      ∧ difficulty_breakdown (answers st') !! "medium" = Some (1, 1)
      ∧ difficulty_breakdown (answers st') !! "medium" ≠ Some (0, 0).
Proof.
  split; [reflexivity|]. eexists. split; [reflexivity|].
  split; [vm_compute; reflexivity | vm_compute; discriminate].
Qed.

(** ** Loading *)

Lemma load_questions_uncached_outcomes (fs : string → source) (file_path : string) :
  (fs file_path = NotFound →
     ∃ msg, load_questions_uncached fs file_path = (JArray [], [st_error msg]))
  ∧ (∀ e, fs file_path = Unreadable e →
       load_questions_uncached fs file_path
       = (JArray [], [st_error ("Error loading questions: " +:+ e)]))
  ∧ (∀ e, fs file_path = Malformed e →
       load_questions_uncached fs file_path
       = (JArray [], [st_error ("Error reading JSON file: " +:+ e)]))
  ∧ (∀ data, fs file_path = Document data → (∀ fields, data ≠ JObject fields) →
       ∃ msg, load_questions_uncached fs file_path
              = (JArray [], [st_error ("Error loading questions: " +:+ msg)]))
  ∧ (∀ fields, fs file_path = Document (JObject fields) →
       assoc "questions" fields = None →
       load_questions_uncached fs file_path = (JArray [], []))
  ∧ (∀ fields questions, fs file_path = Document (JObject fields) →
       assoc "questions" fields = Some questions →
       load_questions_uncached fs file_path = (questions, [])).
Proof.
  unfold load_questions_uncached, load_body.
  repeat split.
  - intros ->. eauto.
  - by intros e ->.
  - by intros e ->.
  - intros data -> Hdata. destruct data; simpl; eauto. by destruct (Hdata fields).
  - intros fields -> Hkey. simpl. by rewrite Hkey.
  - intros fields questions -> Hkey. simpl. by rewrite Hkey.
Qed.

(** C9 (as amended). [load_questions_from_json] returns in every case (no
    exception escapes it).  On the first call for a path, when nothing is
    cached for it: a missing file, an unreadable file, text that is not JSON
    and a document that is not an object each give the empty list together
    with one [st.error] message; an object without the ["questions"] key
    gives the empty list and no message; an object with the key gives
    exactly the value stored under it, and no message; and the result is
    cached under the path.  A call for a path that has a cached result
    returns that result with its messages and leaves the cache as it is, so
    every later call for the path repeats the first one, whatever the file
    holds by then. *)
Theorem load_questions_outcomes (fs : string → source) (file_path : string)
    (cache : gmap string (json * list notice)) :
  (∀ hit, cache !! file_path = Some hit →
     load_questions_from_json fs file_path cache = (hit, cache))
  ∧ (cache !! file_path = None →
       ∃ questions out,
         load_questions_from_json fs file_path cache
         = ((questions, out), <[file_path := (questions, out)]> cache)
         ∧ (fs file_path = NotFound →
              questions = JArray [] ∧ ∃ msg, out = [st_error msg])
         ∧ (∀ e, fs file_path = Unreadable e →
              questions = JArray []
              ∧ out = [st_error ("Error loading questions: " +:+ e)])
         ∧ (∀ e, fs file_path = Malformed e →
              questions = JArray []
              ∧ out = [st_error ("Error reading JSON file: " +:+ e)])
         ∧ (∀ data, fs file_path = Document data →
              (∀ fields, data ≠ JObject fields) →
              questions = JArray []
              ∧ ∃ msg, out = [st_error ("Error loading questions: " +:+ msg)])
         ∧ (∀ fields, fs file_path = Document (JObject fields) →
              assoc "questions" fields = None →
              questions = JArray [] ∧ out = [])
         ∧ (∀ fields stored, fs file_path = Document (JObject fields) →
              assoc "questions" fields = Some stored →
              questions = stored ∧ out = []))
  ∧ (∀ fs' : string → source,
       load_questions_from_json fs' file_path
         (load_questions_from_json fs file_path cache).2
       = load_questions_from_json fs file_path cache).
Proof.
  unfold load_questions_from_json.
  split; [by intros hit ->|]. split.
  - intros ->.
    destruct (load_questions_uncached fs file_path) as [questions out] eqn:Hrun.
    exists questions, out. split; [done|].
    destruct (load_questions_uncached_outcomes fs file_path)
      as (Hnf & Hur & Hmf & Hno & Hnk & Hk).
    rewrite Hrun in Hnf, Hur, Hmf, Hno, Hnk, Hk.
    split; [|split; [|split; [|split; [|split]]]].
    + intros H. destruct (Hnf H) as [msg [= -> ->]]. eauto.
    + intros e H. by injection (Hur e H) as -> ->.
    + intros e H. by injection (Hmf e H) as -> ->.
    + intros data H Hdata. destruct (Hno data H Hdata) as [msg [= -> ->]]. eauto.
    + intros fields H Hkey. by injection (Hnk fields H Hkey) as -> ->.
    + intros fields stored H Hkey. by injection (Hk fields stored H Hkey) as -> ->.
  - intros fs'. destruct (cache !! file_path) as [hit|] eqn:Hc; simpl.
    + by rewrite Hc.
    + by rewrite lookup_insert_eq.
Qed.

Lemma load_questions_outcomes_witness :
  load_questions_from_json (λ _, Document one_question_document) "questions.json" ∅
  = ((JArray [JObject [("question", JString "Who won the first Daytona 500?");
                       ("options", JArray [JString "Lee Petty"; JString "Richard Petty"]);
                       ("correct", JNumber 0);
                       ("explanation", JString "Lee Petty won in 1959.")]], []),
     {["questions.json" :=
         (JArray [JObject [("question", JString "Who won the first Daytona 500?");
                           ("options", JArray [JString "Lee Petty"; JString "Richard Petty"]);
                           ("correct", JNumber 0);
                           ("explanation", JString "Lee Petty won in 1959.")]], [])]})
  ∧ load_questions_from_json (λ _, NotFound) "questions.json"
      (load_questions_from_json (λ _, Document one_question_document)
         "questions.json" ∅).2
    = load_questions_from_json (λ _, Document one_question_document)
        "questions.json" ∅.
Proof.
  destruct (load_questions_outcomes (λ _, Document one_question_document)
              "questions.json" ∅) as (_ & Hfirst & Hagain).
  split; [|apply Hagain].
  destruct (Hfirst (lookup_empty _)) as (questions & out & Hrun & _ & _ & _ & _ & _ & Hkey).
  destruct (Hkey _ _ eq_refl eq_refl) as [-> ->].
  rewrite Hrun. by rewrite insert_empty.
Defined.

(** C9 (as stated) fails for a document without the ["questions"] key: on
    a first call the bank is empty and nothing is reported. *)
Lemma load_missing_key_counterexample :
  assoc "questions" [("items", JArray [])] = None
  ∧ (load_questions_from_json (λ _, Document (JObject [("items", JArray [])]))
       "questions.json" ∅).1 = (JArray [], [])
  ∧ ¬ ∃ msg rest,
        (load_questions_from_json
           (λ _, Document (JObject [("items", JArray [])])) "questions.json" ∅).1.2
        = st_error msg :: rest.
Proof.
  split; [reflexivity|]. split; [reflexivity|].
  intros (msg & rest & H). vm_compute in H. discriminate.
Qed.

(** ** The category listing and the category filter *)

Lemma categories_foldl (questions : list question) : ∀ (acc : gset string) c,
  c ∈ foldl (λ (categories : gset string) question,
               let category := default "Unknown" (q_category question) in
               if decide (category = "") then categories
               else categories ∪ {[category]})
            acc questions
  ↔ c ∈ acc ∨ (c ≠ "" ∧ ∃ q, q ∈ questions ∧ default "Unknown" (q_category q) = c).
Proof.
  induction questions as [|q questions IH]; intros acc c; simpl.
  { split; [by left|]. intros [?|(_ & q & Hq & _)]; [done|]. by apply elem_of_nil in Hq. }
  rewrite IH. case_decide as Hempty.
  - split.
    + intros [?|(Hc & q' & Hq' & Hcat)]; [by left|].
      right. split; [done|]. exists q'. split; [by right|done].
    + intros [?|(Hc & q' & Hq' & Hcat)]; [by left|].
      apply elem_of_cons in Hq' as [->|Hq']; [congruence|].
      right. split; [done|]. by exists q'.
  - rewrite elem_of_union, elem_of_singleton. split.
    + intros [[?| ->]|(Hc & q' & Hq' & Hcat)].
      * by left.
      * right. split; [done|]. exists q. split; [by left|done].
      * right. split; [done|]. exists q'. split; [by right|done].
    + intros [?|(Hc & q' & Hq' & Hcat)]; [by left; left|].
      apply elem_of_cons in Hq' as [->|Hq']; [by left; right|].
      right. split; [done|]. by exists q'.
Qed.

Lemma available_categories_elem (st : session_state) (c : string) :
  c ∈ get_available_categories st
  ↔ c ≠ "" ∧ ∃ q, q ∈ all_questions st ∧ default "Unknown" (q_category q) = c.
Proof.
  unfold get_available_categories. case_decide as Hall.
  - rewrite Hall. split; [by intros ?%elem_of_nil|].
    intros (_ & q & Hq & _). by apply elem_of_nil in Hq.
  - rewrite merge_sort_Permutation, elem_of_elements. unfold categories_of.
    rewrite categories_foldl.
    split; [|by right]. intros [Hc|?]; [|done]. by apply elem_of_empty in Hc.
Qed.

(** C10. When a question of the bank has no category, the listing of
    categories contains ["Unknown"], but filtering on ["Unknown"] drops that
    question and every other question without a category (their missing
    category reads as the empty string), so the count for ["Unknown"] is the
    count over the questions that do carry a category: none of the questions
    without one is counted. *)
Theorem unknown_listed_but_not_matched (st : session_state) (q : question) :
  q ∈ all_questions st → q_category q = None →
  "Unknown" ∈ get_available_categories st
  ∧ (q ∉ filter_questions_by_category (all_questions st) "Unknown")
  ∧ (∀ q', q' ∈ filter_questions_by_category (all_questions st) "Unknown" →
       ∃ c, q_category q' = Some c ∧ lower c = "unknown")
  ∧ (∀ difficulty,
       get_filtered_question_count difficulty "Unknown" st
       = length (filter_questions_by_difficulty
                   (filter_questions_by_category
                      (with_category (all_questions st)) "Unknown")
                   difficulty))
  ∧ (∀ difficulty,
       get_filtered_question_count difficulty "Unknown" st
       < length (all_questions st)).
Proof.
  intros Hq Hcat.
  assert (Hmatch : ∀ q', q' ∈ filter_questions_by_category (all_questions st) "Unknown"
            ↔ q' ∈ all_questions st ∧ ∃ c, q_category q' = Some c ∧ lower c = "unknown").
  { intros q'. unfold filter_questions_by_category.
    rewrite decide_False by done. rewrite list_elem_of_filter.
    change (lower "Unknown") with "unknown". split.
    - intros [Hl Hin]. split; [done|].
      destruct (q_category q') as [c|]; simpl in Hl; [eauto|discriminate].
    - by intros [Hin (c & -> & Hl)]. }
  assert (Hsame : filter_questions_by_category (all_questions st) "Unknown"
            = filter_questions_by_category (with_category (all_questions st)) "Unknown").
  { unfold filter_questions_by_category, with_category.
    rewrite decide_False by done. rewrite list_filter_filter.
    change (lower "Unknown") with "unknown".
    apply list_filter_iff. intros q'. destruct (q_category q'); simpl.
    - split; [|by intros [? _]]. intros ?. split; [done|by eexists].
    - split; [discriminate|by intros [? _]]. }
  assert (Hnot : q ∉ filter_questions_by_category (all_questions st) "Unknown").
  { rewrite Hmatch. intros [_ (c & ? & _)]. congruence. }
  split; [|split; [|split; [|split]]].
  - apply available_categories_elem. split; [done|].
    exists q. split; [done|]. by rewrite Hcat.
  - done.
  - intros q' Hq'. by apply Hmatch in Hq' as [_ ?].
  - intros difficulty. by rewrite filtered_count_length, Hsame.
  - intros difficulty. rewrite filtered_count_length.
    assert (Hle1 : ∀ l, length (filter_questions_by_difficulty l difficulty) ≤ length l).
    { intros l. unfold filter_questions_by_difficulty. case_decide; [done|].
      apply length_filter. }
    eapply Nat.le_lt_trans; [apply Hle1|].
    unfold filter_questions_by_category in *. rewrite decide_False in * by done.
    apply list_elem_of_lookup in Hq as [i Hi].
    eapply (length_filter_lt _ _ q); [by eapply list_elem_of_lookup_2|].
    simpl. by rewrite Hcat.
Qed.

Lemma unknown_listed_but_not_matched_witness :
  "Unknown" ∈ get_available_categories (bank_state sample_bank)
  ∧ get_filtered_question_count "mixed" "Unknown" (bank_state sample_bank) = 0.
Proof.
  destruct (unknown_listed_but_not_matched (bank_state sample_bank)
              (Question "How many points races are in the Chase?"
                 ["8"; "10"] 1 "Ten races." None None))
    as (Hlisted & _ & _ & Hcount & _).
  - simpl. do 2 right. left.
  - reflexivity.
  - split; [exact Hlisted|]. rewrite Hcount. reflexivity.
Defined.

(** ** The earlier script

    [nascar_quiz.py] does what the script above does with the category set
    to ["all"], up to the wording of the messages, the category key of the
    answer records and the recorded category. *)

Lemma difficulty_only_filter (difficulty_level : string) (st : session_state) :
  DifficultyOnly.filter_questions_by_difficulty difficulty_level st
  = available difficulty_level "all" st.
Proof. reflexivity. Qed.

(** X22. The earlier [start_quiz] and the later one called with the
    category ["all"] fail together, leaving the state as it is, and succeed
    together with the same drawn questions and the same fresh session; the
    earlier one only leaves the recorded category as it was, and words its
    messages differently. *)
Theorem difficulty_only_start_quiz rnd difficulty_level st :
  (start_quiz rnd difficulty_level "all" st = Returned false st
     [st_error "Cannot start quiz: No questions available."]
   ∧ DifficultyOnly.start_quiz rnd difficulty_level st = Returned false st
       [st_error "Cannot start quiz: No questions available."])
  ∨ (∃ out out', start_quiz rnd difficulty_level "all" st = Returned false st out
       ∧ DifficultyOnly.start_quiz rnd difficulty_level st = Returned false st out')
  ∨ (∃ out out',
       start_quiz rnd difficulty_level "all" st
       = Returned true (started rnd difficulty_level "all" st) out
       ∧ DifficultyOnly.start_quiz rnd difficulty_level st
         = Returned true
             (set_selected_category (selected_category st)
                (started rnd difficulty_level "all" st)) out').
Proof.
  destruct (start_quiz_cases rnd difficulty_level "all" st)
    as [[Hall H]|[(Hall & Hav & ? & H)|(Hall & Hav & ? & H)]]; rewrite H.
  - left. split; [done|].
    unfold DifficultyOnly.start_quiz. unfold_quiz. simpl.
    rewrite decide_True by done. by destruct st.
  - right; left. do 2 eexists. split; [done|].
    unfold DifficultyOnly.start_quiz. unfold_quiz. simpl.
    rewrite decide_False by done.
    rewrite difficulty_only_filter, decide_True by done. by destruct st.
  - right; right. eexists.
    exists (if decide (length (available difficulty_level "all" st) < 5)
            then [st_warning
                    ("Only " +:+ pretty (length (available difficulty_level "all" st))
                     +:+ " questions available for " +:+ difficulty_level
                     +:+ " difficulty.")]
            else []).
    split; [done|].
    unfold DifficultyOnly.start_quiz, started. unfold_quiz. simpl.
    rewrite decide_False by done.
    rewrite !difficulty_only_filter, decide_False by done.
    pose proof (random_sample_min rnd (available difficulty_level "all" st)) as Hs.
    unfold_quiz.
    destruct (decide (length (available difficulty_level "all" st) < 5)); simpl;
      rewrite Hs; simpl; reflexivity.
Qed.

Lemma difficulty_only_submit_answer_complete selected_option st :
  length (quiz_questions st) ≤ current_question st →
  DifficultyOnly.submit_answer selected_option st = Raised IndexError st [].
Proof.
  intros Hdone. unfold DifficultyOnly.submit_answer.
  unfold mbind, M_bind, bind, gets. simpl.
  by rewrite index_None by by apply lookup_ge_None.
Qed.

Lemma difficulty_only_submit_answer_in_progress selected_option st current_q :
  quiz_questions st !! current_question st = Some current_q →
  DifficultyOnly.submit_answer selected_option st
  = Returned tt
      (set_answers
         (answers st ++ [DifficultyOnly.answer_record current_q selected_option])
         (answered current_q selected_option st)) [].
Proof.
  intros Hq. unfold DifficultyOnly.submit_answer.
  unfold mbind, M_bind, bind, gets. simpl.
  rewrite (index_Some _ _ _ _ Hq). unfold answered.
  by destruct (bool_decide (selected_option = q_correct current_q)).
Qed.

(** * Further properties *)

(** ** The filters as selections *)

(** X1. Each filter keeps a sublist of its input (same order, nothing
    added), filtering twice with the same argument changes nothing more, and
    a filter on a named, non-empty level or category keeps only questions
    that carry the field: a question without the field is never kept. *)
Theorem filters_select (questions : list question) (level : string) :
  filter_questions_by_difficulty questions level `sublist_of` questions
  ∧ filter_questions_by_category questions level `sublist_of` questions
  ∧ filter_questions_by_difficulty
      (filter_questions_by_difficulty questions level) level
    = filter_questions_by_difficulty questions level
  ∧ filter_questions_by_category
      (filter_questions_by_category questions level) level
    = filter_questions_by_category questions level
  ∧ (level ≠ "mixed" → lower level ≠ "" →
       ∀ q, q ∈ filter_questions_by_difficulty questions level →
         ∃ d, q_difficulty q = Some d ∧ lower d = lower level)
  ∧ (level ≠ "all" → lower level ≠ "" →
       ∀ q, q ∈ filter_questions_by_category questions level →
         ∃ c, q_category q = Some c ∧ lower c = lower level).
Proof.
  unfold filter_questions_by_difficulty, filter_questions_by_category.
  repeat split.
  - case_decide; [done|apply sublist_filter].
  - case_decide; [done|apply sublist_filter].
  - case_decide; [done|]. rewrite list_filter_filter.
    apply list_filter_iff. tauto.
  - case_decide; [done|]. rewrite list_filter_filter.
    apply list_filter_iff. tauto.
  - intros Hlevel Hne q. rewrite decide_False by done.
    intros [Hq _]%list_elem_of_filter.
    destruct (q_difficulty q) as [d|]; simpl in Hq; [eauto|congruence].
  - intros Hlevel Hne q. rewrite decide_False by done.
    intros [Hq _]%list_elem_of_filter.
    destruct (q_category q) as [c|]; simpl in Hq; [eauto|congruence].
Qed.

Lemma filters_select_witness :
  ∃ d, q_difficulty (Question "Which track is called The Lady in Black?"
                       ["Darlington"; "Bristol"; "Talladega"] 0 "Darlington Raceway."
                       (Some "Hard") (Some "Tracks")) = Some d
       ∧ lower d = "hard".
Proof.
  destruct (filters_select sample_bank "HARD") as (_ & _ & _ & _ & Hkept & _).
  apply Hkept; [discriminate | discriminate |].
  vm_compute. left.
Defined.

(** ** The counts of the pickers *)

Lemma length_filter_three {A} (P1 P2 P3 : A → Prop)
    `{!∀ x, Decision (P1 x), !∀ x, Decision (P2 x), !∀ x, Decision (P3 x)}
    (l : list A) :
  (∀ x, P1 x → P2 x → False) → (∀ x, P1 x → P3 x → False) →
  (∀ x, P2 x → P3 x → False) →
  length (filter P1 l) + length (filter P2 l) + length (filter P3 l) ≤ length l.
Proof.
  intros H12 H13 H23. induction l as [|x l IH]; [done|].
  rewrite !filter_cons.
  destruct (decide (P1 x)), (decide (P2 x)), (decide (P3 x)); simpl;
    try lia; exfalso; eauto.
Qed.

Lemma filter_difficulty_mixed (questions : list question) :
  filter_questions_by_difficulty questions "mixed" = questions.
Proof. reflexivity. Qed.

Lemma filter_category_all (questions : list question) :
  filter_questions_by_category questions "all" = questions.
Proof. reflexivity. Qed.

Lemma length_filter_difficulty_le (questions : list question) level :
  length (filter_questions_by_difficulty questions level) ≤ length questions.
Proof.
  unfold filter_questions_by_difficulty. case_decide; [done|apply length_filter].
Qed.

Lemma length_filter_category_le (questions : list question) category :
  length (filter_questions_by_category questions category) ≤ length questions.
Proof.
  unfold filter_questions_by_category. case_decide; [done|apply length_filter].
Qed.

(** X3. Narrowing a filter never raises the count: the count for a
    difficulty and category is at most the count for that category with
    mixed difficulty, at most the count for that difficulty over all
    categories, and at most the size of the bank, which is the count for
    mixed and all.  The counts for easy, medium and hard of one category
    together never exceed its mixed count. *)
Theorem filtered_count_bounds (difficulty category : string) (st : session_state) :
  get_filtered_question_count difficulty category st
  ≤ get_filtered_question_count "mixed" category st
  ∧ get_filtered_question_count difficulty category st
    ≤ get_filtered_question_count difficulty "all" st
  ∧ get_filtered_question_count "mixed" "all" st = length (all_questions st)
  ∧ get_filtered_question_count "easy" category st
    + get_filtered_question_count "medium" category st
    + get_filtered_question_count "hard" category st
    ≤ get_filtered_question_count "mixed" category st.
Proof.
  rewrite !filtered_count_length, !filter_category_all, !filter_difficulty_mixed.
  split; [|split; [|split]].
  - apply length_filter_difficulty_le.
  - rewrite <- filter_category_difficulty_comm. apply length_filter_category_le.
  - done.
  - unfold filter_questions_by_difficulty. rewrite !decide_False by done.
    change (lower "easy") with "easy". change (lower "medium") with "medium".
    change (lower "hard") with "hard".
    apply length_filter_three; intros q; congruence.
Qed.

(** X4. The start button and [start_quiz] agree: [start_quiz] never
    raises, and it returns [True] exactly when the count of matching
    questions is positive, whatever the random generator yields. *)
Theorem start_quiz_succeeds_iff_count
    (rnd : list nat) (difficulty_level category : string) (st : session_state) :
  ∃ b st' out,
    start_quiz rnd difficulty_level category st = Returned b st' out
    ∧ (b = true ↔ 0 < get_filtered_question_count difficulty_level category st).
Proof.
  rewrite filtered_count_length. fold (available difficulty_level category st).
  destruct (start_quiz_cases rnd difficulty_level category st)
    as [[Hall H]|[(_ & Hav & ? & H)|(_ & Hav & ? & H)]];
    rewrite H; do 3 eexists; (split; [done|]).
  - unfold available, filter_questions_by_category, filter_questions_by_difficulty.
    rewrite Hall. repeat case_decide; simpl; split; (done || lia).
  - rewrite Hav. simpl. split; (done || lia).
  - split; [|done]. intros _.
    destruct (available difficulty_level category st); [done|simpl; lia].
Qed.

(** ** The order of [sorted] *)

Lemma ascii_compare_spec (a b : ascii) :
  CompareSpec (a = b) (N_of_ascii a < N_of_ascii b)%N
    (N_of_ascii b < N_of_ascii a)%N (Ascii.compare a b).
Proof.
  unfold Ascii.compare.
  destruct (N.compare_spec (N_of_ascii a) (N_of_ascii b)) as [Heq| |];
    constructor; try done.
  by rewrite <- (ascii_N_embedding a), <- (ascii_N_embedding b), Heq.
Qed.

Lemma string_compare_refl (s : string) : String.compare s s = Eq.
Proof.
  induction s as [|a s IH]; simpl; [done|].
  destruct (ascii_compare_spec a a); try lia. done.
Qed.

Lemma string_compare_lt_trans (s1 : string) : ∀ s2 s3,
  String.compare s1 s2 = Lt → String.compare s2 s3 = Lt →
  String.compare s1 s3 = Lt.
Proof.
  induction s1 as [|a s1 IH]; intros [|b s2] [|c s3]; simpl; try done.
  destruct (ascii_compare_spec a b), (ascii_compare_spec b c),
    (ascii_compare_spec a c); subst; try done; try lia; eauto.
Qed.

Lemma str_le_total : Total str_le.
Proof. intros a b. apply String.leb_total. Qed.

Lemma str_le_trans : Transitive str_le.
Proof.
  unfold str_le, String.leb. intros s1 s2 s3 H12 H23.
  destruct (String.compare s1 s2) eqn:E12; [|clear H12|done].
  { by apply String.compare_eq_iff in E12 as ->. }
  destruct (String.compare s2 s3) eqn:E23; [|clear H23|done].
  { apply String.compare_eq_iff in E23 as <-. by rewrite E12. }
  by rewrite (string_compare_lt_trans _ _ _ E12 E23).
Qed.

(** ** The category picker *)

(** X5. The list of categories offered by the picker is sorted, has no
    repetition, and holds exactly the non-empty labels found in the bank,
    where a question without a category contributes ["Unknown"]; labels
    that differ only in case are listed separately. *)
Theorem available_categories_sorted_distinct (st : session_state) :
  StronglySorted str_le (get_available_categories st)
  ∧ NoDup (get_available_categories st)
  ∧ ∀ c, c ∈ get_available_categories st
         ↔ c ≠ "" ∧ ∃ q, q ∈ all_questions st
                         ∧ default "Unknown" (q_category q) = c.
Proof.
  split; [|split].
  - unfold get_available_categories. case_decide; [constructor|].
    pose proof str_le_total. pose proof str_le_trans.
    apply (StronglySorted_merge_sort str_le).
  - unfold get_available_categories. case_decide; [constructor|].
    rewrite merge_sort_Permutation. apply NoDup_elements.
  - apply available_categories_elem.
Qed.

Lemma length_filter_impl {A} (P Q : A → Prop)
    `{!∀ x, Decision (P x), !∀ x, Decision (Q x)} (l : list A) :
  (∀ x, P x → Q x) → length (filter P l) ≤ length (filter Q l).
Proof.
  intros HPQ. induction l as [|x l IH]; [done|].
  rewrite !filter_cons.
  destruct (decide (P x)), (decide (Q x)); simpl; try lia.
  exfalso; eauto.
Qed.

(** ** The statistics dictionaries *)

Section Tally.
Context (key : question → string).

Lemma tally_lookup (questions : list question) : ∀ (stats : gmap string nat) k,
  foldl (tally_step key) stats questions !! k
  = if decide (key_count key k questions = 0) then stats !! k
    else Some (default 0 (stats !! k) + key_count key k questions).
Proof.
  unfold key_count.
  induction questions as [|q questions IH]; intros stats k; simpl; [done|].
  rewrite IH, filter_cons. unfold tally_step.
  destruct (decide (key q = k)) as [->|Hne]; simpl.
  - rewrite lookup_insert_eq. simpl. repeat case_decide; try lia; f_equal; lia.
  - rewrite lookup_insert_ne by done. done.
Qed.

Lemma stats_total_insert (stats : gmap string nat) k n :
  stats_total (<[k := n]> stats) + default 0 (stats !! k) = stats_total stats + n.
Proof.
  unfold stats_total.
  destruct (stats !! k) as [m|] eqn:Hk; simpl.
  - rewrite <- (insert_delete_eq stats).
    rewrite (map_to_list_insert (delete k stats)) by apply lookup_delete_eq.
    assert (Hp : map_to_list stats ≡ₚ (k, m) :: map_to_list (delete k stats)).
    { rewrite <- (map_to_list_insert (delete k stats)) by apply lookup_delete_eq.
      by rewrite insert_delete_id. }
    rewrite Hp. csimpl. lia.
  - rewrite (map_to_list_insert stats) by done. csimpl. lia.
Qed.

Lemma tally_total (questions : list question) : ∀ stats : gmap string nat,
  stats_total (foldl (tally_step key) stats questions)
  = stats_total stats + length questions.
Proof.
  induction questions as [|q questions IH]; intros stats; simpl; [lia|].
  rewrite IH. unfold tally_step.
  pose proof (stats_total_insert stats (key q) (default 0 (stats !! key q) + 1)).
  lia.
Qed.

End Tally.

Lemma stats_total_empty : stats_total ∅ = 0.
Proof. unfold stats_total. by rewrite map_to_list_empty. Qed.

Lemma difficulty_stats_foldl (st : session_state) :
  get_difficulty_stats st
  = foldl (tally_step (λ q, lower (default "unknown" (q_difficulty q)))) ∅
      (all_questions st).
Proof.
  unfold get_difficulty_stats. case_decide as Hall; [by rewrite Hall|done].
Qed.

Lemma category_stats_foldl (st : session_state) :
  get_category_stats st
  = foldl (tally_step (λ q, default "Unknown" (q_category q))) ∅
      (all_questions st).
Proof.
  unfold get_category_stats. case_decide as Hall; [by rewrite Hall|done].
Qed.

(** X6. [get_difficulty_stats] counts every question of the bank exactly
    once: its values add up to the size of the bank, a key is present
    exactly when some question has that difficulty in lower case (with
    ["unknown"] for a question without one), and its value is the number of
    such questions. *)
Theorem difficulty_stats_counts (st : session_state) :
  stats_total (get_difficulty_stats st) = length (all_questions st)
  ∧ ∀ k, get_difficulty_stats st !! k
         = if decide (count_difficulty k (all_questions st) = 0) then None
           else Some (count_difficulty k (all_questions st)).
Proof.
  rewrite difficulty_stats_foldl. split.
  - by rewrite tally_total, stats_total_empty.
  - intros k. rewrite tally_lookup, lookup_empty. done.
Qed.

(** X7. [get_category_stats] counts every question of the bank exactly
    once: its values add up to the size of the bank, and the value under a
    label is the number of questions with exactly that label (with
    ["Unknown"] for a question without one); the label is absent when there
    is none. *)
Theorem category_stats_counts (st : session_state) :
  stats_total (get_category_stats st) = length (all_questions st)
  ∧ ∀ k, get_category_stats st !! k
         = if decide (count_category k (all_questions st) = 0) then None
           else Some (count_category k (all_questions st)).
Proof.
  rewrite category_stats_foldl. split.
  - by rewrite tally_total, stats_total_empty.
  - intros k. rewrite tally_lookup, lookup_empty. done.
Qed.

(** X8. For a difficulty other than the literal ["mixed"], whose lower-case
    form is neither ["unknown"] nor empty, the number shown in the sidebar
    (the statistics entry under the lower-case key) is the number shown in
    the picker for that difficulty over all categories. *)
Theorem difficulty_stats_agree_with_count (difficulty : string) (st : session_state) :
  difficulty ≠ "mixed" → lower difficulty ≠ "unknown" → lower difficulty ≠ "" →
  default 0 (get_difficulty_stats st !! lower difficulty)
  = get_filtered_question_count difficulty "all" st.
Proof.
  intros Hmixed Hunknown Hempty.
  rewrite difficulty_stats_foldl, tally_lookup, lookup_empty.
  rewrite filtered_count_length, filter_category_all.
  unfold filter_questions_by_difficulty.
  rewrite (decide_False (P := difficulty = "mixed")) by done.
  assert (Hsame : key_count (λ q, lower (default "unknown" (q_difficulty q)))
                    (lower difficulty) (all_questions st)
                  = length (filter (λ q, lower (default "" (q_difficulty q))
                                         = lower difficulty) (all_questions st))).
  { unfold key_count. f_equal. apply list_filter_iff. intros q.
    destruct (q_difficulty q) as [d|]; [done|].
    change (lower (default "unknown" None)) with "unknown".
    change (lower (default "" None)) with "".
    split; congruence. }
  rewrite Hsame. case_decide as Hzero; simpl; lia.
Qed.

Lemma difficulty_stats_agree_with_count_witness :
  default 0 (get_difficulty_stats (bank_state easy_hard_bank) !! "hard") = 2
  ∧ get_filtered_question_count "Hard" "all" (bank_state easy_hard_bank) = 2.
Proof.
  pose proof (difficulty_stats_agree_with_count "Hard" (bank_state easy_hard_bank))
    as H.
  change (lower "Hard") with "hard" in H.
  assert (Hcount : get_filtered_question_count "Hard" "all"
                     (bank_state easy_hard_bank) = 2) by reflexivity.
  split; [|exact Hcount].
  rewrite H; [exact Hcount|discriminate|discriminate|discriminate].
Defined.

(** X9. A category offered by the picker, other than ["Unknown"], always
    has questions behind it: the number shown beside it (from
    [get_category_stats], which compares labels exactly) is at least one
    and at most the number of questions that [start_quiz] will draw from
    (which compares labels without regard to case). *)
Theorem listed_category_has_questions (category : string) (st : session_state) :
  category ∈ get_available_categories st → category ≠ "Unknown" →
  1 ≤ default 0 (get_category_stats st !! category)
  ∧ default 0 (get_category_stats st !! category)
    ≤ get_filtered_question_count "mixed" category st.
Proof.
  intros [Hne (q & Hq & Hcat)]%available_categories_elem Hunknown.
  rewrite category_stats_foldl, tally_lookup, lookup_empty.
  set (n := key_count _ category (all_questions st)).
  assert (Hpos : 1 ≤ n).
  { unfold n, key_count.
    assert (Hin : q ∈ filter (λ q, default "Unknown" (q_category q) = category)
                        (all_questions st)) by by apply list_elem_of_filter.
    destruct (filter _ _); [by apply elem_of_nil in Hin|simpl; lia]. }
  rewrite decide_False by lia. simpl. split; [lia|].
  rewrite filtered_count_length, filter_difficulty_mixed.
  unfold filter_questions_by_category. case_decide as Hall.
  - apply length_filter.
  - apply length_filter_impl. intros q' Hq'.
    destruct (q_category q') as [c|]; simpl in *; congruence.
Qed.

Lemma listed_category_has_questions_witness :
  1 ≤ default 0 (get_category_stats (bank_state sample_bank) !! "Tracks")
  ∧ default 0 (get_category_stats (bank_state sample_bank) !! "Tracks")
    ≤ get_filtered_question_count "mixed" "Tracks" (bank_state sample_bank).
Proof.
  apply (listed_category_has_questions "Tracks" (bank_state sample_bank)).
  - vm_compute. right. left.
  - discriminate.
Defined.

(** ** Starting, resetting and initialising *)

Lemma start_quiz_success rnd difficulty_level category st :
  available difficulty_level category st ≠ [] →
  start_quiz rnd difficulty_level category st
  = Returned true (started rnd difficulty_level category st)
      (if decide (length (available difficulty_level category st) < 5)
       then [st_warning
               ("Only " +:+ pretty (length (available difficulty_level category st))
                +:+ " questions available for " +:+ difficulty_level
                +:+ " difficulty in " +:+ category +:+ " category.")]
       else []).
Proof.
  intros Hav.
  assert (Hall : all_questions st ≠ []).
  { intros Hall. apply Hav. unfold available.
    rewrite Hall. unfold filter_questions_by_category, filter_questions_by_difficulty.
    by repeat case_decide. }
  unfold start_quiz, started. unfold_quiz. simpl.
  fold (available difficulty_level category st).
  rewrite !decide_False by done.
  pose proof (random_sample_min rnd (available difficulty_level category st)) as Hs.
  unfold_quiz.
  destruct (decide (length (available difficulty_level category st) < 5)); simpl;
    rewrite Hs; simpl; reflexivity.
Qed.

(** X10. A successful [start_quiz] installs a fresh session: the quiz is
    started on the question screen at position 0 with score 0 and an empty
    answer log, between one and five questions are drawn, the chosen filters
    are recorded, and the bank is untouched.  A warning is sent exactly when
    fewer than five questions match; nothing else is sent. *)
Theorem start_quiz_installs_fresh_session
    (rnd : list nat) (difficulty_level category : string)
    (st st' : session_state) (out : list notice) :
  start_quiz rnd difficulty_level category st = Returned true st' out →
  quiz_started st' = true ∧ current_question st' = 0 ∧ score st' = 0
  ∧ answers st' = []
  ∧ 1 ≤ length (quiz_questions st') ≤ 5
  ∧ current_screen st' = InProgress
  ∧ selected_difficulty st' = difficulty_level
  ∧ selected_category st' = category
  ∧ all_questions st' = all_questions st
  ∧ questions_loaded st' = questions_loaded st
  ∧ (get_filtered_question_count difficulty_level category st < 5
     → ∃ msg, out = [st_warning msg])
  ∧ (5 ≤ get_filtered_question_count difficulty_level category st → out = []).
Proof.
  intros Hstart.
  assert (Hav : available difficulty_level category st ≠ []).
  { destruct (start_quiz_cases rnd difficulty_level category st)
      as [[_ H]|[(_ & _ & ? & H)|(_ & ? & _)]]; [congruence|congruence|done]. }
  rewrite (start_quiz_success _ _ _ _ Hav) in Hstart.
  injection Hstart as <- <-.
  rewrite filtered_count_length. fold (available difficulty_level category st).
  assert (Hlen : length (quiz_questions (started rnd difficulty_level category st))
                 = min 5 (length (available difficulty_level category st))).
  { unfold started. cbn [quiz_questions]. apply draw_length. lia. }
  assert (Hpos : 0 < length (available difficulty_level category st)).
  { destruct (available difficulty_level category st); [done|simpl; lia]. }
  unfold current_screen. rewrite Hlen.
  cbn [quiz_started current_question score answers selected_difficulty
       selected_category all_questions questions_loaded started negb].
  rewrite decide_True by lia.
  repeat split; try done; try lia.
  - intros Hlt. rewrite decide_True by done. eauto.
  - intros Hge. rewrite decide_False by lia. done.
Qed.

Lemma start_quiz_installs_fresh_session_witness :
  current_screen (started [4; 1] "easy" "all" (bank_state easy_hard_bank)) = InProgress
  ∧ score (started [4; 1] "easy" "all" (bank_state easy_hard_bank)) = 0.
Proof.
  destruct (start_quiz_installs_fresh_session [4; 1] "easy" "all"
              (bank_state easy_hard_bank)
              (started [4; 1] "easy" "all" (bank_state easy_hard_bank))
              [st_warning "Only 3 questions available for easy difficulty in all category."])
    as (_ & _ & Hscore & _ & _ & Hscreen & _).
  - vm_compute. reflexivity.
  - split; assumption.
Defined.

(** X11. Nothing of an earlier session leaks into a new one: a successful
    [start_quiz] gives the same session and the same messages from any two
    states that hold the same bank and the same loaded flag, whatever their
    scores, positions, answer logs, drawn questions and recorded filters.
    In particular it does not matter whether [reset_quiz] ran before. *)
Theorem start_quiz_ignores_previous_session
    (rnd : list nat) (difficulty_level category : string)
    (st1 st2 st' : session_state) (out : list notice) :
  all_questions st1 = all_questions st2 →
  questions_loaded st1 = questions_loaded st2 →
  start_quiz rnd difficulty_level category st1 = Returned true st' out →
  start_quiz rnd difficulty_level category st2 = Returned true st' out
  ∧ start_quiz rnd difficulty_level category (reset_state st1)
    = Returned true st' out.
Proof.
  intros Hbank Hflag Hstart.
  assert (Hav : available difficulty_level category st1 ≠ []).
  { destruct (start_quiz_cases rnd difficulty_level category st1)
      as [[_ H]|[(_ & _ & ? & H)|(_ & ? & _)]]; [congruence|congruence|done]. }
  rewrite (start_quiz_success _ _ _ _ Hav) in Hstart.
  injection Hstart as <- <-.
  assert (Hsame : ∀ st, all_questions st1 = all_questions st →
            questions_loaded st1 = questions_loaded st →
            start_quiz rnd difficulty_level category st
            = Returned true (started rnd difficulty_level category st1)
                (if decide (length (available difficulty_level category st1) < 5)
                 then [st_warning
                         ("Only " +:+ pretty (length (available difficulty_level category st1))
                          +:+ " questions available for " +:+ difficulty_level
                          +:+ " difficulty in " +:+ category +:+ " category.")]
                 else [])).
  { intros st Hb Hf.
    assert (Heq : available difficulty_level category st
                  = available difficulty_level category st1)
      by (unfold available; by rewrite Hb).
    rewrite start_quiz_success by by rewrite Heq.
    unfold started. by rewrite Heq, Hb, Hf. }
  split; apply Hsame; done.
Qed.

Lemma start_quiz_ignores_previous_session_witness :
  start_quiz [0] "mixed" "all" (reset_state completed_answered_session)
  = start_quiz [0] "mixed" "all" completed_answered_session.
Proof.
  destruct (start_quiz [0] "mixed" "all" completed_answered_session)
    as [[] st' out|e st' out] eqn:Hrun; try (vm_compute in Hrun; discriminate).
  by destruct (start_quiz_ignores_previous_session [0] "mixed" "all"
                 completed_answered_session completed_answered_session st' out
                 eq_refl eq_refl Hrun) as [_ ->].
Defined.

(** X12. [reset_quiz] always succeeds and sends nothing; it leaves the
    welcome screen with position 0, score 0, no answers and no drawn
    questions, and keeps the bank, the loaded flag and the recorded
    filters.  Resetting again changes nothing, and after a reset
    [submit_answer] fails with [IndexError] and changes nothing. *)
Theorem reset_quiz_clears_session (st : session_state) :
  reset_quiz st = Returned tt (reset_state st) []
  ∧ current_screen (reset_state st) = Welcome
  ∧ all_questions (reset_state st) = all_questions st
  ∧ selected_difficulty (reset_state st) = selected_difficulty st
  ∧ selected_category (reset_state st) = selected_category st
  ∧ reset_quiz (reset_state st) = Returned tt (reset_state st) []
  ∧ ∀ selected_option,
      submit_answer selected_option (reset_state st)
      = Raised IndexError (reset_state st) [].
Proof.
  split; [reflexivity|]. split; [reflexivity|].
  split; [reflexivity|]. split; [reflexivity|]. split; [reflexivity|].
  split; [reflexivity|].
  intros selected_option. unfold submit_answer.
  unfold mbind, M_bind, bind, gets. cbn [quiz_questions current_question reset_state].
  by rewrite index_None.
Qed.

(** X13. [initialize_questions] loads once.  While the loaded flag is
    unset it stores the loaded list as the bank, sets the flag, passes on
    the loader's messages, and returns [False] with a warning exactly when
    the list is empty; the session fields are untouched.  Once the flag is
    set it returns [True] and does nothing, also when the bank is empty: the
    script stops on an empty bank only in the run that loaded it. *)
Theorem initialize_questions_loads_once
    (loaded : list question) (out : list notice) (st : session_state) :
  (questions_loaded st = true →
     initialize_questions loaded out st = Returned true st [])
  ∧ (questions_loaded st = false →
       ∃ st' out',
         initialize_questions loaded out st
         = Returned (bool_decide (loaded ≠ [])) st' (out ++ out')
         ∧ (loaded = [] → ∃ msg, out' = [st_warning msg])
         ∧ (loaded ≠ [] → out' = [])
         ∧ all_questions st' = loaded
         ∧ questions_loaded st' = true
         ∧ set_all_questions (all_questions st)
             (set_questions_loaded false st') = st
         ∧ ∀ loaded2 out2,
             initialize_questions loaded2 out2 st' = Returned true st' []).
Proof.
  unfold initialize_questions. unfold_quiz. unfold emit_all. split.
  - intros ->. by destruct st.
  - intros Hflag. rewrite Hflag. simpl.
    destruct (decide (loaded = [])) as [->|Hne].
    + exists (set_questions_loaded true (set_all_questions [] st)),
        [st_warning "No questions loaded. Please check your questions file."].
      split; [reflexivity|]. split; [eauto|]. split; [done|].
      split; [done|]. split; [done|]. split; [|done].
      destruct st; simpl in *; by subst.
    + rewrite bool_decide_true by done.
      exists (set_questions_loaded true (set_all_questions loaded st)), [].
      rewrite !app_nil_r. split; [done|]. split; [done|]. split; [done|].
      split; [done|]. split; [done|]. split; [|done].
      destruct st; simpl in *; by subst.
Qed.

Lemma initialize_questions_loads_once_witness :
  initialize_questions [] [] (bank_state []) = Returned true (bank_state []) []
  ∧ ∃ st', initialize_questions []
             [st_error "Error reading JSON file: Expecting value"] initial_state
           = Returned false st'
               [st_error "Error reading JSON file: Expecting value";
                st_warning "No questions loaded. Please check your questions file."]
      ∧ initialize_questions sample_bank [] st' = Returned true st' [].
Proof.
  split.
  - apply (initialize_questions_loads_once [] [] (bank_state [])). reflexivity.
  - destruct (initialize_questions_loads_once []
                [st_error "Error reading JSON file: Expecting value"] initial_state)
      as [_ Hload].
    destruct (Hload eq_refl) as (st' & out' & Hrun & _ & _ & _ & _ & _ & Hagain).
    exists st'. split; [|apply Hagain].
    rewrite Hrun. vm_compute in Hrun. by injection Hrun as <- <-.
Defined.

(** ** The weighted score on any log *)

Lemma question_weight_bounds (q : question) : 1 ≤ question_weight q ≤ 3.
Proof.
  unfold question_weight. rewrite difficulty_weights_lookup.
  repeat case_decide; simpl; lia.
Qed.

Lemma score_loop_any (log : list answer) : ∀ (i total possible : nat) st,
  score_loop i log total possible st
  = if decide (length log ≤ length (drop i (quiz_questions st)))
    then Returned (total + weights_earned (drop i (quiz_questions st)) log,
                   possible + weights_possible (drop i (quiz_questions st)) log)
           st []
    else Raised IndexError st [].
Proof.
  unfold weights_earned, weights_possible.
  induction log as [|a log IH]; intros i total possible st; simpl.
  { unfold_quiz.
    destruct (drop i (quiz_questions st)); simpl; f_equal; f_equal; lia. }
  unfold mbind, M_bind, bind, gets. simpl.
  destruct (quiz_questions st !! i) as [q|] eqn:Hq.
  - rewrite (index_Some _ _ _ _ Hq), IH, (drop_S _ _ _ Hq). simpl.
    fold (question_weight q).
    destruct (decide (length log ≤ length (drop (S i) (quiz_questions st))));
      [rewrite decide_True by lia | by rewrite decide_False by lia].
    destruct (a_is_correct a); simpl; f_equal; f_equal; lia.
  - rewrite (index_None _ _ _ Hq).
    apply lookup_ge_None in Hq. rewrite drop_ge by done.
    by rewrite decide_False by (simpl; lia).
Qed.

(** X14. [calculate_difficulty_score] only reads: it never changes the
    session state and sends no message.  It raises [IndexError] exactly when
    the log has more entries than there are drawn questions; otherwise it
    returns the weights of the drawn questions, paired with the log by
    position, whatever difficulty the log entries themselves carry. *)
Theorem weighted_score_errors (log : list answer) (st : session_state) :
  (length log ≤ length (quiz_questions st) →
     calculate_difficulty_score log st
     = Returned (weights_earned (quiz_questions st) log,
                 weights_possible (quiz_questions st) log) st [])
  ∧ (length (quiz_questions st) < length log →
       calculate_difficulty_score log st = Raised IndexError st []).
Proof.
  unfold calculate_difficulty_score. rewrite score_loop_any, drop_0.
  split; intros H; [by rewrite decide_True | by rewrite decide_False by lia].
Qed.

Lemma weighted_score_errors_witness :
  calculate_difficulty_score (answers completed_answered_session)
    (reset_state completed_answered_session)
  = Raised IndexError (reset_state completed_answered_session) [].
Proof.
  apply (weighted_score_errors (answers completed_answered_session)
           (reset_state completed_answered_session)).
  simpl. lia.
Defined.

Lemma weights_bounds (questions : list question) : ∀ log : list answer,
  length log ≤ length questions →
  weights_earned questions log ≤ weights_possible questions log
  ∧ length log ≤ weights_possible questions log ≤ 3 * length log
  ∧ correct_count log ≤ weights_earned questions log
  ∧ (weights_earned questions log = weights_possible questions log
     ↔ Forall (λ a, a_is_correct a = true) log)
  ∧ (weights_earned questions log = 0 ↔ correct_count log = 0).
Proof.
  unfold weights_earned, weights_possible, correct_count.
  induction questions as [|q questions IH]; intros [|a log] Hlen; simpl in *;
    try lia.
  { repeat split; try done; lia. }
  { repeat split; try done; lia. }
  destruct (IH log) as (Hle & Hlo & Hcc & Hall & [Hz1 Hz2]); [lia|].
  pose proof (question_weight_bounds q) as Hw.
  rewrite filter_cons.
  destruct (a_is_correct a) eqn:Ha; simpl.
  - repeat split; try lia.
    + intros Heq. constructor; [done|]. apply Hall. lia.
    + intros Hf. apply Forall_cons in Hf as [_ Hf]. apply Hall in Hf. lia.
  - repeat split; try lia.
    intros Hf. apply Forall_cons in Hf as [Hf _]. congruence.
Qed.

(** X15. When the log is no longer than the list of drawn questions, the
    weighted score that [calculate_difficulty_score] returns satisfies:
    earned is at most possible; possible lies between the number of answers
    and three times that number, so it is positive for a non-empty log;
    earned is at least the number of correct answers; earned equals possible
    exactly when every answer is correct, and is zero exactly when none
    is. *)
Theorem weighted_score_bounds (log : list answer) (st : session_state) :
  length log ≤ length (quiz_questions st) →
  ∃ earned possible,
    calculate_difficulty_score log st = Returned (earned, possible) st []
    ∧ earned ≤ possible
    ∧ length log ≤ possible ≤ 3 * length log
    ∧ correct_count log ≤ earned
    ∧ (earned = possible ↔ Forall (λ a, a_is_correct a = true) log)
    ∧ (earned = 0 ↔ correct_count log = 0).
Proof.
  intros Hlen. unfold calculate_difficulty_score.
  rewrite score_loop_any, drop_0, decide_True by done.
  do 2 eexists. split; [reflexivity|].
  by apply weights_bounds.
Qed.

Lemma weighted_score_bounds_witness :
  ∃ earned possible,
    calculate_difficulty_score (answers easy_hard_session) easy_hard_session
    = Returned (earned, possible) easy_hard_session []
    ∧ earned ≤ possible ∧ 2 ≤ possible ≤ 6.
Proof.
  destruct (weighted_score_bounds (answers easy_hard_session) easy_hard_session)
    as (earned & possible & Hrun & Hle & Hrange & _).
  - simpl. lia.
  - exists earned, possible. split; [exact Hrun|].
    split; [exact Hle|exact Hrange].
Defined.

(** ** The breakdowns of the results screen *)

Lemma category_breakdown_foldl (log : list answer) :
  category_breakdown log = foldl category_step ∅ log.
Proof. reflexivity. Qed.

Lemma category_step_lookup m a key :
  category_step m a !! key
  = if decide (category_key a = key)
    then Some ((default (0, 0) (m !! key)).1
               + (if a_is_correct a then 1 else 0),
               (default (0, 0) (m !! key)).2 + 1)
    else m !! key.
Proof.
  unfold category_step. fold (category_key a).
  destruct (decide (category_key a = key)) as [<-|Hne].
  - destruct (m !! category_key a) as [[c t]|] eqn:Hm.
    + rewrite decide_True by eauto.
      destruct (a_is_correct a); rewrite ?lookup_alter_eq, Hm; simpl;
        f_equal; f_equal; lia.
    + rewrite decide_False by (by intros [? ?]).
      destruct (a_is_correct a); rewrite ?lookup_alter_eq, lookup_insert_eq;
        simpl; f_equal.
  - destruct (a_is_correct a), (decide (is_Some (m !! category_key a)));
      by rewrite ?lookup_alter_ne, ?lookup_insert_ne by done.
Qed.

Lemma category_foldl_lookup (log : list answer) : ∀ m key,
  foldl category_step m log !! key
  = if decide (length (filter (λ a, category_key a = key) log) = 0)
    then m !! key
    else Some ((default (0, 0) (m !! key)).1
               + length (filter (λ a, category_key a = key
                                      ∧ a_is_correct a = true) log),
               (default (0, 0) (m !! key)).2
               + length (filter (λ a, category_key a = key) log)).
Proof.
  induction log as [|a log IH]; intros m key; simpl; [done|].
  rewrite IH, category_step_lookup, !filter_cons.
  assert (Hle : length (filter (λ a, category_key a = key ∧ a_is_correct a = true) log)
                ≤ length (filter (λ a, category_key a = key) log))
    by (apply length_filter_impl; tauto).
  destruct (decide (category_key a = key)) as [Hk|Hk]; simpl.
  - destruct (a_is_correct a) eqn:Ha.
    + rewrite (decide_True (P := _ ∧ _)) by done. simpl.
      case_decide; f_equal; f_equal; lia.
    + rewrite (decide_False (P := _ ∧ _)) by (by intros [_ ?]).
      case_decide; f_equal; f_equal; lia.
  - rewrite (decide_False (P := _ ∧ _)) by (by intros [? _]). done.
Qed.

(** X16. The category breakdown has an entry exactly for the categories
    that occur in the log (["Unknown"] for a record without one).  Each
    entry holds the number of correct answers and the number of answers of
    that category, so its total is at least one (the percentage shown for it
    never divides by zero) and its correct count is at most its total. *)
Theorem category_breakdown_counts (log : list answer) (key : string) :
  category_breakdown log !! key
  = (if decide (length (filter (λ a, category_key a = key) log) = 0) then None
     else Some (length (filter (λ a, category_key a = key
                                     ∧ a_is_correct a = true) log),
                length (filter (λ a, category_key a = key) log)))
  ∧ (∀ correct total, category_breakdown log !! key = Some (correct, total) →
       1 ≤ total ∧ correct ≤ total ∧ ∃ a, a ∈ log ∧ category_key a = key).
Proof.
  assert (Hlookup : category_breakdown log !! key
    = if decide (length (filter (λ a, category_key a = key) log) = 0) then None
      else Some (length (filter (λ a, category_key a = key
                                      ∧ a_is_correct a = true) log),
                 length (filter (λ a, category_key a = key) log))).
  { rewrite category_breakdown_foldl, category_foldl_lookup, lookup_empty.
    by case_decide. }
  split; [done|].
  intros correct total. rewrite Hlookup. case_decide as Hzero; [done|].
  intros [= <- <-]. split; [lia|]. split.
  - apply length_filter_impl. tauto.
  - destruct (filter (λ a, category_key a = key) log) as [|a l] eqn:Hf; [done|].
    exists a.
    assert (Hin : a ∈ filter (λ a, category_key a = key) log)
      by (rewrite Hf; left).
    by apply list_elem_of_filter in Hin as [? ?].
Qed.

Lemma category_breakdown_counts_witness :
  category_breakdown (answers easy_hard_session) !! "History" = Some (1, 2).
Proof.
  destruct (category_breakdown_counts (answers easy_hard_session) "History")
    as [Hlookup _].
  rewrite Hlookup. reflexivity.
Defined.

Lemma length_filter_canonical (log : list answer) :
  total_of "easy" log + total_of "medium" log + total_of "hard" log
  = length (filter (λ a, difficulty_key a ∈ canonical_difficulties) log)
  ∧ correct_of "easy" log + correct_of "medium" log + correct_of "hard" log
    = correct_count (filter (λ a, difficulty_key a ∈ canonical_difficulties) log).
Proof.
  unfold total_of, correct_of, correct_count.
  induction log as [|a log [IHt IHc]]; [done|].
  rewrite !filter_cons.
  destruct (decide (difficulty_key a ∈ canonical_difficulties)) as [Hin|Hout].
  - rewrite filter_cons. apply canonical_difficulties_elem in Hin.
    destruct (a_is_correct a) eqn:Ha;
      destruct Hin as [Hk | [Hk | Hk]]; rewrite Hk;
      repeat (case_decide; try done; try (exfalso; intuition congruence));
      simpl; lia.
  - rewrite canonical_difficulties_elem in Hout.
    rewrite !(decide_False (P := difficulty_key a = _)) by tauto.
    rewrite !(decide_False (P := _ ∧ _)) by tauto. done.
Qed.

(** X17. In the difficulty breakdown the correct count of each key is at
    most its total; the three totals add up to the number of answers whose
    difficulty is easy, medium or hard, hence to the length of the log when
    every answer has one of them, and the three correct counts add up to
    the number of correct answers among those. *)
Theorem difficulty_breakdown_totals (log : list answer) :
  ∃ easy medium hard : nat * nat,
    difficulty_breakdown log !! "easy" = Some easy
    ∧ difficulty_breakdown log !! "medium" = Some medium
    ∧ difficulty_breakdown log !! "hard" = Some hard
    ∧ easy.1 ≤ easy.2 ∧ medium.1 ≤ medium.2 ∧ hard.1 ≤ hard.2
    ∧ easy.2 + medium.2 + hard.2
      = length (filter (λ a, difficulty_key a ∈ canonical_difficulties) log)
    ∧ easy.1 + medium.1 + hard.1
      = correct_count (filter (λ a, difficulty_key a ∈ canonical_difficulties) log)
    ∧ easy.2 + medium.2 + hard.2 ≤ length log
    ∧ (Forall (λ a, difficulty_key a ∈ canonical_difficulties) log →
         easy.2 + medium.2 + hard.2 = length log
         ∧ easy.1 + medium.1 + hard.1 = correct_count log).
Proof.
  exists (correct_of "easy" log, total_of "easy" log),
         (correct_of "medium" log, total_of "medium" log),
         (correct_of "hard" log, total_of "hard" log).
  rewrite difficulty_breakdown_foldl, !breakdown_foldl_lookup.
  destruct (length_filter_canonical log) as [Ht Hc]. simpl.
  split; [done|]. split; [done|]. split; [done|].
  assert (Hle : ∀ key, correct_of key log ≤ total_of key log).
  { intros key. apply length_filter_impl. tauto. }
  split; [apply Hle|]. split; [apply Hle|]. split; [apply Hle|].
  split; [done|]. split; [done|]. split.
  - rewrite Ht. apply length_filter.
  - intros Hall.
    assert (Hid : filter (λ a, difficulty_key a ∈ canonical_difficulties) log = log).
    { clear -Hall. induction Hall as [|a l Ha _ IH]; [done|].
      by rewrite filter_cons, decide_True, IH by done. }
    by rewrite Ht, Hc, Hid.
Qed.

Lemma difficulty_breakdown_totals_witness :
  ∃ easy medium hard : nat * nat,
    difficulty_breakdown (answers easy_hard_session) !! "easy" = Some easy
    ∧ difficulty_breakdown (answers easy_hard_session) !! "medium" = Some medium
    ∧ difficulty_breakdown (answers easy_hard_session) !! "hard" = Some hard
    ∧ easy.2 + medium.2 + hard.2 = 2 ∧ easy.1 + medium.1 + hard.1 = 1.
Proof.
  destruct (difficulty_breakdown_totals (answers easy_hard_session))
    as (easy & medium & hard & He & Hm & Hh & _ & _ & _ & _ & _ & _ & Hall).
  exists easy, medium, hard.
  split; [exact He|]. split; [exact Hm|]. split; [exact Hh|].
  apply Hall. repeat constructor; apply canonical_difficulties_elem;
    vm_compute; tauto.
Defined.

(** ** The session through the three screens *)

Lemma session_ok_initial : session_ok initial_state.
Proof. split; simpl; try done; try lia. Qed.

Lemma session_ok_same_session (st st' : session_state) :
  quiz_started st' = quiz_started st →
  current_question st' = current_question st →
  score st' = score st → answers st' = answers st →
  quiz_questions st' = quiz_questions st →
  session_ok st → session_ok st'.
Proof.
  intros H1 H2 H3 H4 H5 [].
  split; rewrite ?H1, ?H2, ?H3, ?H4, ?H5; done.
Qed.

Lemma session_ok_started rnd difficulty_level category st :
  available difficulty_level category st ≠ [] →
  session_ok (started rnd difficulty_level category st).
Proof.
  intros Hav.
  assert (Hlen : length (quiz_questions (started rnd difficulty_level category st))
                 = min 5 (length (available difficulty_level category st))).
  { unfold started. cbn [quiz_questions]. apply draw_length. lia. }
  assert (Hpos : 0 < length (available difficulty_level category st)).
  { destruct (available difficulty_level category st); [done|simpl; lia]. }
  split; try rewrite Hlen; cbn [started quiz_started current_question score answers];
    try done; try lia.
  intros _ Hnil. rewrite Hnil in Hlen.
  change (length (@nil question)) with 0 in Hlen. lia.
Qed.

Lemma session_ok_answered current_q selected_option st :
  quiz_questions st !! current_question st = Some current_q →
  (0 ≤ selected_option < Z.of_nat (length (q_options current_q)))%Z →
  session_ok st → session_ok (answered current_q selected_option st).
Proof.
  intros Hq Hsel [Hpos Hbound Hscore Hdrawn Hstarted Hidle Hlog].
  pose proof (lookup_lt_Some _ _ _ Hq) as Hlt.
  split; cbn [answered quiz_started current_question score answers quiz_questions];
    try done.
  - rewrite length_app. simpl. lia.
  - lia.
  - rewrite correct_count_app, correct_count_record, Hscore.
    destruct (bool_decide (selected_option = q_correct current_q)); lia.
  - rewrite length_app. simpl. rewrite <- Hpos.
    replace (current_question st + 1) with (S (current_question st)) by lia.
    rewrite (take_S_r _ _ _ Hq). apply Forall2_app; [by rewrite Hpos|].
    constructor; [|constructor]. by exists selected_option.
Qed.

Lemma initialize_questions_steps loaded out st :
  initialize_questions loaded out st
  = Returned true (if questions_loaded st then st
                   else set_questions_loaded true (set_all_questions loaded st))
      (if questions_loaded st then [] else out)
  ∨ initialize_questions loaded out st
    = Returned false (set_questions_loaded true (set_all_questions loaded st))
        (out ++ [st_warning "No questions loaded. Please check your questions file."]).
Proof.
  unfold initialize_questions. unfold_quiz. unfold emit_all.
  destruct (questions_loaded st) eqn:Hflag; simpl; [by left|].
  destruct (decide (loaded = [])) as [->|Hne]; simpl; [by right|].
  left. by rewrite !app_nil_r.
Qed.

Lemma ui_step_keeps_ok (st st' : session_state) :
  ui_step st st' → session_ok st → session_ok st'.
Proof.
  intros Hstep IH.
  destruct Hstep as [loaded out st b st' out' Hrun
                    |rnd d c st b st' out Hscreen Hrun
                    |sel st q st' out Hscreen Hq Hsel Hrun
                    |st st' out Hstarted Hrun].
  - destruct (initialize_questions_steps loaded out (set_questions_loaded false st))
      as [Heq|Heq]; rewrite Heq in Hrun; injection Hrun as _ <- _;
      by eapply session_ok_same_session; [..|exact IH].
  - destruct (start_quiz_cases rnd d c st)
      as [[_ H]|[(_ & _ & ? & H)|(_ & Hav & ? & H)]];
      rewrite H in Hrun; injection Hrun as _ <- _; [done|done|].
    by apply session_ok_started.
  - rewrite (submit_answer_in_progress _ _ _ Hq) in Hrun.
    injection Hrun as <- _. by apply session_ok_answered.
  - unfold reset_quiz in Hrun. unfold_quiz. simpl in Hrun.
    injection Hrun as <- _.
    split; simpl; try done; try lia.
Qed.

Lemma reachable_invariant (st : session_state) :
  reachable st → session_ok st.
Proof.
  unfold reachable. revert st.
  apply rtc_ind_r; [apply session_ok_initial|].
  intros st1 st2 _ Hstep IH. by eapply ui_step_keeps_ok.
Qed.

(** X18. Every state that the script can reach keeps the session
    consistent: the position is the length of the answer log and never
    exceeds the number of drawn questions; the score is the number of
    correct records and never exceeds the position; at most five questions
    are drawn; a started quiz has at least one drawn question and an idle
    one has no drawn question, no answer and no score; and each record is
    the record of an offered option of the drawn question at its
    position. *)
Theorem reachable_session_ok (st : session_state) :
  reachable st →
  current_question st = length (answers st)
  ∧ current_question st ≤ length (quiz_questions st)
  ∧ score st = correct_count (answers st)
  ∧ score st ≤ current_question st
  ∧ length (quiz_questions st) ≤ 5
  ∧ (quiz_started st = true → quiz_questions st ≠ [])
  ∧ (quiz_started st = false →
       quiz_questions st = [] ∧ answers st = [] ∧ score st = 0)
  ∧ Forall2 recorded (take (length (answers st)) (quiz_questions st))
      (answers st).
Proof.
  intros Hreach.
  assert (Hok : session_ok st).
  { revert st Hreach. apply rtc_ind_r; [apply session_ok_initial|].
    intros st1 st2 _ Hstep IH. by eapply ui_step_keeps_ok. }
  destruct Hok as [Hpos Hbound Hscore Hdrawn Hstarted Hidle Hlog].
  split; [done|]. split; [done|]. split; [done|]. split.
  { rewrite Hscore, Hpos. apply length_filter. }
  split; [done|]. split; [done|]. split; [|done].
  intros Hoff. specialize (Hidle Hoff). rewrite Hidle in Hbound.
  assert (Hnil : answers st = []).
  { destruct (answers st); [done|]. simpl in *. lia. }
  split; [done|]. split; [done|]. by rewrite Hscore, Hnil.
Qed.

Lemma completed_answered_session_reachable : reachable completed_answered_session.
Proof.
  unfold reachable.
  eapply rtc_l.
  { eapply (ui_load (all_questions one_question_session) []). reflexivity. }
  eapply rtc_l.
  { eapply (ui_start [] "mixed" "all"); [reflexivity|]. vm_compute. reflexivity. }
  eapply rtc_l.
  { eapply (ui_submit 0); [reflexivity|reflexivity|simpl; lia|].
    vm_compute. reflexivity. }
  apply rtc_refl.
Defined.

Lemma reachable_session_ok_witness :
  score completed_answered_session
  = correct_count (answers completed_answered_session)
  ∧ score completed_answered_session ≤ current_question completed_answered_session.
Proof.
  destruct (reachable_session_ok completed_answered_session
              completed_answered_session_reachable)
    as (_ & _ & Hscore & Hle & _).
  split; [exact Hscore|exact Hle].
Defined.

Lemma results_screen_position (st : session_state) :
  session_ok st → current_screen st = Results →
  quiz_started st = true ∧ current_question st = length (quiz_questions st)
  ∧ length (answers st) = length (quiz_questions st)
  ∧ 1 ≤ length (quiz_questions st).
Proof.
  intros [Hpos Hbound Hscore Hdrawn Hstarted Hidle Hlog].
  unfold current_screen.
  destruct (quiz_started st); simpl; [|done].
  case_decide as Hlt; [done|]. intros _.
  assert (Hne : quiz_questions st ≠ []) by by apply Hstarted.
  destruct (quiz_questions st); [done|]. simpl in *. lia.
Qed.

(** X19. On the results screen of a reachable state the quiz is complete
    and nothing divides by zero: between one and five questions were drawn,
    the position and the number of answers both equal the number of drawn
    questions, the score is at most that number, and
    [calculate_difficulty_score] on the answer log returns, without raising,
    a weighted score whose maximum is positive and whose earned part is at
    most the maximum. *)
Theorem results_screen_is_safe (st : session_state) :
  reachable st → current_screen st = Results →
  1 ≤ length (quiz_questions st) ≤ 5
  ∧ current_question st = length (quiz_questions st)
  ∧ length (answers st) = length (quiz_questions st)
  ∧ score st ≤ length (quiz_questions st)
  ∧ ∃ earned possible,
      calculate_difficulty_score (answers st) st
      = Returned (earned, possible) st []
      ∧ earned ≤ possible ∧ 0 < possible.
Proof.
  intros Hok%reachable_invariant Hscreen.
  destruct (results_screen_position st Hok Hscreen) as (_ & Hpos & Hlen & Hone).
  destruct Hok as [_ _ Hscore Hdrawn _ _ _].
  split; [lia|]. split; [done|]. split; [done|]. split.
  { rewrite Hscore, <- Hlen. apply length_filter. }
  unfold calculate_difficulty_score.
  rewrite score_loop_any, drop_0, decide_True by lia.
  do 2 eexists. split; [reflexivity|].
  destruct (weights_bounds (quiz_questions st) (answers st)) as (Hle & Hlo & _);
    [lia|].
  simpl. lia.
Qed.

Lemma results_screen_is_safe_witness :
  current_screen completed_answered_session = Results
  ∧ ∃ earned possible,
      calculate_difficulty_score (answers completed_answered_session)
        completed_answered_session
      = Returned (earned, possible) completed_answered_session []
      ∧ earned ≤ possible ∧ 0 < possible.
Proof.
  split; [reflexivity|].
  destruct (results_screen_is_safe completed_answered_session
              completed_answered_session_reachable eq_refl)
    as (_ & _ & _ & _ & Hscore).
  exact Hscore.
Defined.

(** ** The detailed results *)

Lemma option_at_ok (options : list string) (i : Z) :
  (- Z.of_nat (length options) ≤ i < Z.of_nat (length options))%Z →
  ∃ text, option_at options i = inr text.
Proof.
  intros Hi. unfold option_at.
  destruct (decide (0 ≤ i < Z.of_nat (length options))%Z) as [Hin|Hout]; simpl.
  - destruct (lookup_lt_is_Some_2 options (Z.to_nat i)) as [text Ht]; [lia|].
    rewrite Ht. eauto.
  - rewrite decide_True by lia. simpl.
    destruct (lookup_lt_is_Some_2 options
                (Z.to_nat (Z.of_nat (length options) + i))) as [text Ht]; [lia|].
    rewrite Ht. eauto.
Qed.

Lemma option_at_error (options : list string) (i : Z) :
  ¬ (- Z.of_nat (length options) ≤ i < Z.of_nat (length options))%Z →
  option_at options i = inl IndexError.
Proof.
  intros Hi. unfold option_at.
  by rewrite !decide_False by lia.
Qed.

(** The correct index of [q] can be used as a Python index into its
    options. *)
Lemma detailed_results_from_rows (st : session_state) (log : list answer) :
  ∀ i,
  Forall2 recorded (take (length log) (drop i (quiz_questions st))) log →
  (Forall (λ q, (- Z.of_nat (length (q_options q)) ≤ q_correct q
                 < Z.of_nat (length (q_options q)))%Z)
          (take (length log) (drop i (quiz_questions st))) →
     ∃ rows, detailed_results_from st (S i) log = inr rows
             ∧ length rows = length log)
  ∧ (Exists (λ q, ¬ (- Z.of_nat (length (q_options q)) ≤ q_correct q
                     < Z.of_nat (length (q_options q)))%Z)
            (take (length log) (drop i (quiz_questions st))) →
       detailed_results_from st (S i) log = inl IndexError).
Proof.
  induction log as [|a log IH]; intros i Hlog.
  { simpl. split; [by exists []|]. by intros ?%Exists_nil. }
  simpl in Hlog.
  destruct (drop i (quiz_questions st)) as [|q rest] eqn:Hdrop;
    [by apply Forall2_nil_cons_inv in Hlog|].
  apply Forall2_cons_1 in Hlog as [(sel & -> & Hsel) Hrest].
  assert (Hi : quiz_questions st !! i = Some q).
  { pose proof (lookup_drop (quiz_questions st) i 0) as Hl.
    rewrite Hdrop, Nat.add_0_r in Hl. by rewrite <- Hl. }
  assert (Hdrop' : drop (S i) (quiz_questions st) = rest).
  { pose proof (drop_S _ _ _ Hi) as Hd. congruence. }
  destruct (IH (S i)) as [IHok IHbad]; [by rewrite Hdrop'|].
  rewrite Hdrop' in IHok, IHbad.
  destruct (option_at_ok (q_options q) sel) as [yours Hyours]; [lia|].
  cbn [detailed_results_from length take]. unfold detailed_result.
  cbn [a_selected a_correct answer_record].
  replace (S i - 1) with i by lia. rewrite Hi, Hyours.
  split.
  - intros [Hq Hall]%Forall_cons.
    destruct (option_at_ok (q_options q) (q_correct q) Hq) as [expected ->].
    destruct (IHok Hall) as (rows & -> & Hlen).
    eexists. split; [reflexivity|]. simpl. by rewrite Hlen.
  - intros Hex.
    destruct (decide (- Z.of_nat (length (q_options q)) ≤ q_correct q
                      < Z.of_nat (length (q_options q)))%Z) as [Hq|Hq].
    + destruct (option_at_ok (q_options q) (q_correct q) Hq) as [expected ->].
      apply Exists_cons in Hex as [Hbad|Hex]; [done|].
      by rewrite (IHbad Hex).
    + by rewrite (option_at_error _ _ Hq).
Qed.

(** X20. In a reachable state the detailed results never fail on the
    option the user selected.  They show one row per answer when the correct
    index of every answered question is a valid index into its options (from
    minus the number of options up to, not including, that number), and
    raise [IndexError] when some answered question has a correct index
    outside that range: the bank is not checked when it is loaded. *)
Theorem detailed_results_rows (st : session_state) :
  reachable st →
  (Forall (λ q, (- Z.of_nat (length (q_options q)) ≤ q_correct q
                 < Z.of_nat (length (q_options q)))%Z)
          (take (length (answers st)) (quiz_questions st)) →
     ∃ rows, detailed_results st = inr rows
             ∧ length rows = length (answers st))
  ∧ (Exists (λ q, ¬ (- Z.of_nat (length (q_options q)) ≤ q_correct q
                     < Z.of_nat (length (q_options q)))%Z)
            (take (length (answers st)) (quiz_questions st)) →
       detailed_results st = inl IndexError).
Proof.
  intros [_ _ _ _ _ _ Hlog]%reachable_invariant.
  unfold detailed_results.
  pose proof (detailed_results_from_rows st (answers st) 0) as H.
  rewrite drop_0 in H. by apply H.
Qed.

Lemma detailed_results_rows_witness :
  detailed_results completed_answered_session
  = inr [("Lee Petty", "Lee Petty")].
Proof.
  destruct (detailed_results_rows completed_answered_session
              completed_answered_session_reachable) as [Hrows _].
  destruct Hrows as (rows & Hrun & _).
  - repeat constructor; simpl; lia.
  - rewrite Hrun. vm_compute in Hrun. by injection Hrun as <-.
Defined.

(** X21. In a reachable state every record holds an index that was
    offered for its question, its correct index is the question's, and it is
    marked correct only if that correct index is itself one of the offered
    indices: a question whose correct index is outside its options can never
    be answered correctly. *)
Theorem recorded_answers_in_range (st : session_state) (i : nat)
    (q : question) (a : answer) :
  reachable st →
  quiz_questions st !! i = Some q → answers st !! i = Some a →
  (0 ≤ a_selected a < Z.of_nat (length (q_options q)))%Z
  ∧ a_correct a = q_correct q
  ∧ a_question a = q_question q
  ∧ (a_is_correct a = true ↔ a_selected a = q_correct q)
  ∧ (a_is_correct a = true →
       (0 ≤ q_correct q < Z.of_nat (length (q_options q)))%Z).
Proof.
  intros [_ _ _ _ _ _ Hlog]%reachable_invariant Hq Ha.
  pose proof (lookup_lt_Some _ _ _ Ha) as Hlt.
  assert (Hq' : take (length (answers st)) (quiz_questions st) !! i = Some q)
    by by rewrite lookup_take_lt.
  destruct (Forall2_lookup_lr _ _ _ _ _ _ Hlog Hq' Ha) as (sel & -> & Hsel).
  cbn [answer_record a_selected a_correct a_question a_is_correct].
  split; [done|]. split; [done|]. split; [done|]. split.
  - apply bool_decide_eq_true.
  - intros Hc%bool_decide_eq_true. by rewrite <- Hc.
Qed.

Lemma recorded_answers_in_range_witness :
  (0 ≤ a_selected (answer_record
                     (Question "Who won the first Daytona 500?"
                        ["Lee Petty"; "Richard Petty"] 0 "Lee Petty won in 1959."
                        (Some "easy") (Some "History")) 0) < 2)%Z.
Proof.
  by destruct (recorded_answers_in_range completed_answered_session 0 _ _
                 completed_answered_session_reachable eq_refl eq_refl) as [? _].
Defined.

(** X23. The earlier [submit_answer] behaves as the later one: it raises
    [IndexError] and changes nothing once the position has reached the
    number of drawn questions, and otherwise it moves the position and the
    score in the same way and appends the same record except that the
    record has no category. *)
Theorem difficulty_only_submit_answer (selected_option : Z) (st : session_state) :
  (length (quiz_questions st) ≤ current_question st →
     DifficultyOnly.submit_answer selected_option st = Raised IndexError st []
     ∧ submit_answer selected_option st = Raised IndexError st [])
  ∧ (∀ current_q, quiz_questions st !! current_question st = Some current_q →
       ∃ st1 st2,
         submit_answer selected_option st = Returned tt st1 []
         ∧ DifficultyOnly.submit_answer selected_option st = Returned tt st2 []
         ∧ current_question st2 = current_question st1
         ∧ score st2 = score st1
         ∧ quiz_questions st2 = quiz_questions st1
         ∧ answers st1 = answers st ++ [answer_record current_q selected_option]
         ∧ answers st2
           = answers st ++ [DifficultyOnly.answer_record current_q selected_option]
         ∧ a_category (DifficultyOnly.answer_record current_q selected_option)
           = None
         ∧ a_difficulty (DifficultyOnly.answer_record current_q selected_option)
           = a_difficulty (answer_record current_q selected_option)
         ∧ a_is_correct (DifficultyOnly.answer_record current_q selected_option)
           = a_is_correct (answer_record current_q selected_option)).
Proof.
  split.
  - intros Hdone. split; [by apply difficulty_only_submit_answer_complete|].
    unfold submit_answer. unfold mbind, M_bind, bind, gets. simpl.
    by rewrite index_None by by apply lookup_ge_None.
  - intros current_q Hq. do 2 eexists.
    rewrite (submit_answer_in_progress _ _ _ Hq).
    rewrite (difficulty_only_submit_answer_in_progress _ _ _ Hq).
    repeat split.
Qed.

Lemma difficulty_only_submit_answer_witness :
  ∃ st2, DifficultyOnly.submit_answer 0 one_question_session = Returned tt st2 []
    ∧ current_question st2 = 1 ∧ score st2 = 1.
Proof.
  destruct (difficulty_only_submit_answer 0 one_question_session) as [_ Hrun].
  destruct (Hrun _ eq_refl) as (st1 & st2 & Hnew & Hold & Hpos & Hscore & _).
  exists st2. split; [exact Hold|].
  vm_compute in Hnew. injection Hnew as <-.
  split; [exact Hpos|exact Hscore].
Defined.
